(** * Catmull-Rom segment evaluation: [tools/splines.py]

    A shallow embedding of [catmull_rom_point] (with its inner helper [tj])
    and of [catmull_rom], followed by the properties stated about them.

    Numbers.  The program computes with numpy [float64] values.  They are
    modelled here by the type [float]: an exact real number, or one of the
    three special values [+inf], [-inf], [nan], combined by the IEEE-754
    rules for special values.  Rounding, overflow, underflow and the sign of
    zero are not modelled: a finite result is the exact real result.

    Inputs.  Control coordinates, the parameter [t] and the exponent
    [alpha] are finite numbers (type [R]).  A control value handed to
    [catmull_rom_point] is, as in Python, either a single number or a pair
    of numbers (an array of shape [(2,)]); only pairs can be unpacked by
    [tj].  All arithmetic follows numpy: a division by zero yields an
    infinity or [nan], it does not raise.

    Two refinements follow the first embedding.  The module [Py] embeds
    the same functions with the run-time type of every operand tracked
    (Python float or numpy number, tuple or array), where Python's own
    division and its product of a number with a tuple raise; on numpy
    arrays it agrees with the first embedding ([py_agrees]).
    [tj_underflow] keeps the one effect of float64 rounding that can make
    a knot step vanish, the underflow of a square. *)

From Stdlib Require Import Reals Lra List ZArith Lia.
Import ListNotations.

Local Open Scope R_scope.

(** ** Idealised float64 arithmetic *)

Module Float.

Inductive float : Type :=
| Fin (r : R)
| PInf
| NInf
| NaN.

Definition fadd (a b : float) : float :=
  match a, b with
  | NaN, _ | _, NaN => NaN
  | Fin x, Fin y => Fin (x + y)
  | PInf, NInf | NInf, PInf => NaN
  | PInf, _ | _, PInf => PInf
  | NInf, _ | _, NInf => NInf
  end.

Definition fsub (a b : float) : float :=
  match a, b with
  | NaN, _ | _, NaN => NaN
  | Fin x, Fin y => Fin (x - y)
  | PInf, PInf | NInf, NInf => NaN
  | PInf, _ | _, NInf => PInf
  | NInf, _ | _, PInf => NInf
  end.

(** Sign of a real number as an infinity: the product of an infinity with a
    finite factor, and the quotient of a finite numerator by zero. *)
Definition inf_of_sign (x : R) : float :=
  if Rlt_dec 0 x then PInf else if Rlt_dec x 0 then NInf else NaN.

Definition fmul (a b : float) : float :=
  match a, b with
  | NaN, _ | _, NaN => NaN
  | Fin x, Fin y => Fin (x * y)
  | Fin x, PInf | PInf, Fin x => inf_of_sign x
  | Fin x, NInf | NInf, Fin x => inf_of_sign (- x)
  | PInf, PInf | NInf, NInf => PInf
  | PInf, NInf | NInf, PInf => NInf
  end.

(** A zero denominator is the result of subtracting two equal knots, hence
    a positive zero: the quotient takes the sign of the numerator. *)
Definition fdiv (a b : float) : float :=
  match a, b with
  | NaN, _ | _, NaN => NaN
  | Fin x, Fin y => if Req_dec_T y 0 then inf_of_sign x else Fin (x / y)
  | Fin _, (PInf | NInf) => Fin 0
  | PInf, Fin y => if Rlt_dec y 0 then NInf else PInf
  | NInf, Fin y => if Rlt_dec y 0 then PInf else NInf
  | (PInf | NInf), (PInf | NInf) => NaN
  end.

(** [l ** alpha] for a finite base [l >= 0] (the base is always a square
    root in this program) and a finite exponent. *)
Definition fpow (l alpha : R) : float :=
  if Req_dec_T alpha 0 then Fin 1
  else if Req_dec_T l 0 then (if Rlt_dec 0 alpha then Fin 0 else PInf)
  else Fin (Rpower l alpha).

(** The comparison [<] of floats: false whenever a [nan] is involved. *)
Definition flt (a b : float) : Prop :=
  match a, b with
  | Fin x, Fin y => x < y
  | NInf, (Fin _ | PInf) => True
  | Fin _, PInf => True
  | _, _ => False
  end.

End Float.
Export Float.

Declare Scope float_scope.
Delimit Scope float_scope with fl.
Bind Scope float_scope with float.
Infix "+" := fadd : float_scope.
Infix "-" := fsub : float_scope.
Infix "*" := fmul : float_scope.
Infix "/" := fdiv : float_scope.

(** ** Python values and exceptions *)

Inductive exn : Type :=
| AssertionError
| TypeError
| ValueError
| IndexError
| ZeroDivisionError.

Inductive result (A : Type) : Type :=
| Ok (a : A)
| Raise (e : exn).
Arguments Ok {A} a.
Arguments Raise {A} e.

Definition bind {A B : Type} (m : result A) (f : A -> result B) : result B :=
  match m with
  | Ok a => f a
  | Raise e => Raise e
  end.

Notation "x <- m ;; k" := (bind m (fun x => k))
  (at level 61, m at next level, right associativity).
Notation "' p <- m ;; k" := (bind m (fun x => let p := x in k))
  (at level 61, p pattern, m at next level, right associativity).

(** A number, or an array of two numbers. *)
Inductive nd (A : Type) : Type :=
| Scalar (a : A)
| Pair (a b : A).
Arguments Scalar {A} a.
Arguments Pair {A} a b.

(** A control value supplied by the caller. *)
Definition value : Type := nd R.
(** A computed float64 scalar or array. *)
Definition obj : Type := nd float.

Definition lift (v : value) : obj :=
  match v with
  | Scalar x => Scalar (Fin x)
  | Pair x y => Pair (Fin x) (Fin y)
  end.

(** [xi, yi = pi]: a number is not iterable. *)
Definition unpack (v : value) : result (R * R) :=
  match v with
  | Pair x y => Ok (x, y)
  | Scalar _ => Raise TypeError
  end.

(** [c * p] for a float64 scalar [c]: numpy broadcasts over an array. *)
Definition scale (c : float) (p : obj) : obj :=
  match p with
  | Scalar x => Scalar (c * x)%fl
  | Pair x y => Pair (c * x)%fl (c * y)%fl
  end.

(** [p + q], with broadcasting of a scalar against an array. *)
Definition oadd (p q : obj) : obj :=
  match p, q with
  | Scalar x, Scalar y => Scalar (x + y)%fl
  | Scalar x, Pair a b => Pair (x + a)%fl (x + b)%fl
  | Pair a b, Scalar y => Pair (a + y)%fl (b + y)%fl
  | Pair a b, Pair c d => Pair (a + c)%fl (b + d)%fl
  end.

Infix "*:" := scale (at level 40, left associativity).
Infix "+:" := oadd (at level 50, left associativity).

(** ** The program *)

(** [tj], the helper nested in [catmull_rom_point]; it reads [alpha] from
    the enclosing call.  [(dx ** 2 + dy ** 2) ** 0.5] is the square root of
    a non-negative finite number. *)
Definition tj (alpha : R) (ti : float) (pi pj : value) : result float :=
  '(xi, yi) <- unpack pi ;;
  '(xj, yj) <- unpack pj ;;
  let dx := xj - xi in
  let dy := yj - yi in
  let l := sqrt (dx ^ 2 + dy ^ 2) in
  Ok (ti + fpow l alpha)%fl.

(** The six blends multiply float64 weights with the control values and
    add the products; [lift] views a control value as float64 data. *)
Definition catmull_rom_point (p0 p1 p2 p3 : value) (t alpha : R)
  : result obj :=
  let t0 := Fin 0 in
  t1 <- tj alpha t0 p0 p1 ;;
  t2 <- tj alpha t1 p1 p2 ;;
  t3 <- tj alpha t2 p2 p3 ;;
  let t := Fin t in
  let p0 := lift p0 in
  let p1 := lift p1 in
  let p2 := lift p2 in
  let p3 := lift p3 in
  let a1 := ((t1 - t) / (t1 - t0))%fl *: p0 +: ((t - t0) / (t1 - t0))%fl *: p1 in
  let a2 := ((t2 - t) / (t2 - t1))%fl *: p1 +: ((t - t1) / (t2 - t1))%fl *: p2 in
  let a3 := ((t3 - t) / (t3 - t2))%fl *: p2 +: ((t - t2) / (t3 - t2))%fl *: p3 in
  let b1 := ((t2 - t) / (t2 - t0))%fl *: a1 +: ((t - t0) / (t2 - t0))%fl *: a2 in
  let b2 := ((t3 - t) / (t3 - t1))%fl *: a2 +: ((t - t1) / (t3 - t1))%fl *: a3 in
  let p := ((t2 - t) / (t2 - t1))%fl *: b1 +: ((t - t1) / (t2 - t1))%fl *: b2 in
  Ok p.

(** [np.linspace(start, stop, num, endpoint=False)]: [num] samples
    [start + k * step], [step = (stop - start) / num]; a negative [num] is
    rejected by numpy. *)
Definition linspace (start stop : R) (num : Z) : result (list R) :=
  if (num <? 0)%Z then Raise ValueError
  else
    let step := (stop - start) / IZR num in
    Ok (map (fun k : nat => INR k * step + start) (seq 0 (Z.to_nat num))).

(** [[f(t) for t in ts]]: the first exception ends the comprehension. *)
Fixpoint comprehension {A B : Type} (f : A -> result B) (ts : list A)
  : result (list B) :=
  match ts with
  | [] => Ok []
  | t :: ts' =>
      b <- f t ;;
      bs <- comprehension f ts' ;;
      Ok (b :: bs)
  end.

(** [p[i]] *)
Definition getitem {A : Type} (p : list A) (i : nat) : result A :=
  match nth_error p i with
  | Some a => Ok a
  | None => Raise IndexError
  end.

Definition catmull_rom (p_x p_y : list value) (res : Z) (alpha : R)
  : result (list obj * list obj) :=
  if negb ((length p_x =? length p_y)%nat && (length p_y =? 4)%nat)
  then Raise AssertionError
  else
    ts <- linspace 0 1 res ;;
    x <- comprehension
           (fun t =>
              q0 <- getitem p_x 0 ;; q1 <- getitem p_x 1 ;;
              q2 <- getitem p_x 2 ;; q3 <- getitem p_x 3 ;;
              catmull_rom_point q0 q1 q2 q3 t alpha) ts ;;
    ts' <- linspace 0 1 res ;;
    y <- comprehension
           (fun t =>
              q0 <- getitem p_x 0 ;; q1 <- getitem p_x 1 ;;
              q2 <- getitem p_x 2 ;; q3 <- getitem p_x 3 ;;
              catmull_rom_point q0 q1 q2 q3 t alpha) ts' ;;
    Ok (x, y).

(** ** Notions used to state the properties *)

(** Euclidean distance between two points of the plane. *)
Definition dist (p q : R * R) : R :=
  sqrt ((fst q - fst p) ^ 2 + (snd q - snd p) ^ 2).

(** The knot sequence computed by the first four statements of
    [catmull_rom_point]. *)
Definition knots (p0 p1 p2 p3 : value) (alpha : R)
  : result (float * float * float * float) :=
  let t0 := Fin 0 in
  t1 <- tj alpha t0 p0 p1 ;;
  t2 <- tj alpha t1 p1 p2 ;;
  t3 <- tj alpha t2 p2 p3 ;;
  Ok (t0, t1, t2, t3).

(** The affine blend of the specification:
    [blend(u,v,tlo,thi,t) = (thi-t)/(thi-tlo)*u + (t-tlo)/(thi-tlo)*v]. *)
Definition blend (u v : obj) (tlo thi t : float) : obj :=
  ((thi - t) / (thi - tlo))%fl *: u +: ((t - tlo) / (thi - tlo))%fl *: v.

(** The two-level blending of the specification, at evaluation parameter
    [u], over a given knot sequence. *)
Definition segment (K : float * float * float * float)
  (p0 p1 p2 p3 : obj) (u : float) : obj :=
  let '(t0, t1, t2, t3) := K in
  let a1 := blend p0 p1 t0 t1 u in
  let a2 := blend p1 p2 t1 t2 u in
  let a3 := blend p2 p3 t2 t3 u in
  let b1 := blend a1 a2 t0 t2 u in
  let b2 := blend a2 a3 t1 t3 u in
  blend b1 b2 t1 t2 u.

(** The remapping of the specification: a normalised [t] is sent to
    [t1 + t*(t2-t1)]. *)
Definition remap (K : float * float * float * float) (t : float) : float :=
  let '(_, t1, t2, _) := K in (t1 + t * (t2 - t1))%fl.

(** The same construction on one coordinate axis. *)
Definition blend1 (u v tlo thi t : float) : float :=
  ((thi - t) / (thi - tlo) * u + (t - tlo) / (thi - tlo) * v)%fl.

Definition channel (K : float * float * float * float)
  (c0 c1 c2 c3 : float) (u : float) : float :=
  let '(t0, t1, t2, t3) := K in
  let a1 := blend1 c0 c1 t0 t1 u in
  let a2 := blend1 c1 c2 t1 t2 u in
  let a3 := blend1 c2 c3 t2 t3 u in
  let b1 := blend1 a1 a2 t0 t2 u in
  let b2 := blend1 a2 a3 t1 t3 u in
  blend1 b1 b2 t1 t2 u.

(** Knots derived from the full 2D distances between consecutive points:
    [t0 = 0] and [t(i+1) = ti + |p(i+1) - pi| ** alpha]. *)
Definition knots2d (p0 p1 p2 p3 : R * R) (alpha : R)
  : float * float * float * float :=
  let t0 := Fin 0 in
  let t1 := (t0 + fpow (dist p0 p1) alpha)%fl in
  let t2 := (t1 + fpow (dist p1 p2) alpha)%fl in
  let t3 := (t2 + fpow (dist p2 p3) alpha)%fl in
  (t0, t1, t2, t3).

(** The blending over finite, pairwise different knots, in real numbers. *)
Definition blendR (u v tlo thi t : R) : R :=
  (thi - t) / (thi - tlo) * u + (t - tlo) / (thi - tlo) * v.

Definition channelR (t0 t1 t2 t3 c0 c1 c2 c3 u : R) : R :=
  let a1 := blendR c0 c1 t0 t1 u in
  let a2 := blendR c1 c2 t1 t2 u in
  let a3 := blendR c2 c3 t2 t3 u in
  let b1 := blendR a1 a2 t0 t2 u in
  let b2 := blendR a2 a3 t1 t3 u in
  blendR b1 b2 t1 t2 u.

(** What the specification asks of [catmull_rom]: each returned sequence
    is computed from its own channel of control values. *)
Definition catmull_rom_per_channel (p_x p_y : list value) (res : Z) (alpha : R)
  : result (list obj * list obj) :=
  if negb ((length p_x =? length p_y)%nat && (length p_y =? 4)%nat)
  then Raise AssertionError
  else
    ts <- linspace 0 1 res ;;
    x <- comprehension
           (fun t =>
              q0 <- getitem p_x 0 ;; q1 <- getitem p_x 1 ;;
              q2 <- getitem p_x 2 ;; q3 <- getitem p_x 3 ;;
              catmull_rom_point q0 q1 q2 q3 t alpha) ts ;;
    y <- comprehension
           (fun t =>
              q0 <- getitem p_y 0 ;; q1 <- getitem p_y 1 ;;
              q2 <- getitem p_y 2 ;; q3 <- getitem p_y 3 ;;
              catmull_rom_point q0 q1 q2 q3 t alpha) ts ;;
    Ok (x, y).

(** A 2D control point as the pair handed to [catmull_rom_point]. *)
Definition pt (p : R * R) : value := Pair (fst p) (snd p).

(** The curve point at parameter [t]: each coordinate is obtained by the
    1-D construction on its own axis, both over the knots [knots2d]. *)
Definition curve_point (p0 p1 p2 p3 : R * R) (alpha t : R) : obj :=
  let K := knots2d p0 p1 p2 p3 alpha in
  Pair (channel K (Fin (fst p0)) (Fin (fst p1)) (Fin (fst p2)) (Fin (fst p3)) (Fin t))
       (channel K (Fin (snd p0)) (Fin (snd p1)) (Fin (snd p2)) (Fin (snd p3)) (Fin t)).

(** ** The rest of the file *)

(** [transform_control_points]: [a*2.0*p[0]] is [(a*2.0)*p[0]], and the
    sums associate to the left.  The second and third entries of the
    result are the objects [p[1]] and [p[2]] themselves. *)
Definition transform_control_points (p : list value)
  : result (obj * obj * obj * obj) :=
  if negb (length p =? 4)%nat then Raise AssertionError
  else
    let a := Fin (-1) in
    q0 <- getitem p 0 ;; q1 <- getitem p 1 ;;
    let c0 := (a * Fin 2)%fl *: lift q0 +: lift q1 in
    c1 <- getitem p 1 ;;
    c2 <- getitem p 2 ;;
    r0 <- getitem p 0 ;; r1 <- getitem p 1 ;;
    r2 <- getitem p 2 ;; r3 <- getitem p 3 ;;
    let c3 := a *: lift r0 +: lift r1 +: lift r2 +: lift r3 in
    Ok (c0, lift c1, lift c2, c3).

Definition a_uniform : R := 0.
Definition a_centripetal : R := 1 / 2.

(** The script under [if __name__ == '__main__'], up to its two calls of
    [catmull_rom]; what follows them only draws the results.  The four
    values of [np.random.rand()] are parameters. *)
Definition script_curves (r0 r1 r2 r3 : R)
  : result ((list obj * list obj) * (list obj * list obj)) :=
  let res := 50%Z in
  let p_x := [Scalar 0; Scalar 1; Scalar 2; Scalar 3] in
  let p_y := [Scalar (r0 * 3 - 15 / 10); Scalar (r1 * 3 - 15 / 10);
              Scalar (r2 * 3 - 15 / 10); Scalar (r3 * 3 - 15 / 10)] in
  c_intpol <- catmull_rom p_x p_y res a_centripetal ;;
  u_intpol <- catmull_rom p_x p_y res a_uniform ;;
  Ok (c_intpol, u_intpol).

(** Whether a control value can be unpacked into two coordinates. *)
Definition is_pair (v : value) : bool :=
  match v with
  | Pair _ _ => true
  | Scalar _ => false
  end.

(** A point moved by the vector [v]. *)
Definition shift (v p : R * R) : R * R := (fst p + fst v, snd p + snd v).

(** ** Run-time types of numbers and points

    Above, every control point is a numpy array and every number a numpy
    [float64].  The module [Py] embeds the same functions once more with
    the run-time type of each operand tracked, as far as it changes the
    outcome: a number is a Python [float] or a numpy [float64], a control
    value is a number, a tuple of two Python floats or a numpy array of two
    numbers.  An operation on two Python floats is Python's (a division by
    zero and a zero base with a negative exponent raise
    [ZeroDivisionError]); as soon as one operand is a numpy number it is
    numpy's.  A number times a tuple raises [TypeError], whichever kind the
    number is.  [alpha] is a Python float, as it is annotated and as the
    two presets are. *)

Module Py.

Inductive kind : Type :=
| PyFloat
| NpFloat.

Definition join (a b : kind) : kind :=
  match a with
  | PyFloat => b
  | NpFloat => NpFloat
  end.

Record num : Type := Num { kind_of : kind; val : float }.

Definition add (a b : num) : num :=
  Num (join (kind_of a) (kind_of b)) (val a + val b)%fl.

Definition sub (a b : num) : num :=
  Num (join (kind_of a) (kind_of b)) (val a - val b)%fl.

Definition fzero_dec (f : float) : {f = Fin 0} + {f <> Fin 0}.
Proof.
  destruct f as [r | | |]; try (right; discriminate).
  destruct (Req_dec_T r 0) as [-> | N]; [left; reflexivity |].
  right. intros E. injection E as E. contradiction.
Defined.

Definition div (a b : num) : result num :=
  match join (kind_of a) (kind_of b) with
  | PyFloat =>
      if fzero_dec (val b) then Raise ZeroDivisionError
      else Ok (Num PyFloat (val a / val b)%fl)
  | NpFloat => Ok (Num NpFloat (val a / val b)%fl)
  end.

(** [l ** alpha] for a base [l >= 0] of kind [k]. *)
Definition pow (k : kind) (l alpha : R) : result num :=
  match k with
  | PyFloat =>
      if Rlt_dec alpha 0
      then (if Req_dec_T l 0 then Raise ZeroDivisionError
            else Ok (Num PyFloat (fpow l alpha)))
      else Ok (Num PyFloat (fpow l alpha))
  | NpFloat => Ok (Num NpFloat (fpow l alpha))
  end.

Inductive point : Type :=
| Number (x : R)
| Tuple (x y : R)
| Array (x y : R).

Definition unpack (p : point) : result (kind * R * R) :=
  match p with
  | Number _ => Raise TypeError
  | Tuple x y => Ok (PyFloat, x, y)
  | Array x y => Ok (NpFloat, x, y)
  end.

Definition tj (alpha : R) (ti : num) (pi pj : point) : result num :=
  '(ki, xi, yi) <- unpack pi ;;
  '(kj, xj, yj) <- unpack pj ;;
  let dx := xj - xi in
  let dy := yj - yi in
  let l := sqrt (dx ^ 2 + dy ^ 2) in
  pw <- pow (join ki kj) l alpha ;;
  Ok (add ti pw).

(** [w * p] for a weight [w] and a control value [p]. *)
Definition mul_point (w : num) (p : point) : result obj :=
  match p with
  | Number x => Ok (val w *: Scalar (Fin x))
  | Tuple _ _ => Raise TypeError
  | Array x y => Ok (val w *: Pair (Fin x) (Fin y))
  end.

(** Lines 17 to 19: [(hi - t) / (hi - lo) * p + (t - lo) / (hi - lo) * q],
    evaluated from left to right. *)
Definition blend_points (lo hi t : num) (p q : point) : result obj :=
  w <- div (sub hi t) (sub hi lo) ;;
  u <- mul_point w p ;;
  w' <- div (sub t lo) (sub hi lo) ;;
  v <- mul_point w' q ;;
  Ok (u +: v).

(** Lines 20 to 22: the same on two computed arrays. *)
Definition blend_arrays (lo hi t : num) (a b : obj) : result obj :=
  w <- div (sub hi t) (sub hi lo) ;;
  w' <- div (sub t lo) (sub hi lo) ;;
  Ok (val w *: a +: val w' *: b).

Definition catmull_rom_point (p0 p1 p2 p3 : point) (t : num) (alpha : R)
  : result obj :=
  let t0 := Num PyFloat (Fin 0) in
  t1 <- tj alpha t0 p0 p1 ;;
  t2 <- tj alpha t1 p1 p2 ;;
  t3 <- tj alpha t2 p2 p3 ;;
  a1 <- blend_points t0 t1 t p0 p1 ;;
  a2 <- blend_points t1 t2 t p1 p2 ;;
  a3 <- blend_points t2 t3 t p2 p3 ;;
  b1 <- blend_arrays t0 t2 t a1 a2 ;;
  b2 <- blend_arrays t1 t3 t a2 a3 ;;
  blend_arrays t1 t2 t b1 b2.

(** The elements of [np.linspace] are numpy numbers. *)
Definition catmull_rom (p_x p_y : list point) (res : Z) (alpha : R)
  : result (list obj * list obj) :=
  if negb ((length p_x =? length p_y)%nat && (length p_y =? 4)%nat)
  then Raise AssertionError
  else
    ts <- linspace 0 1 res ;;
    x <- comprehension
           (fun t =>
              q0 <- getitem p_x 0 ;; q1 <- getitem p_x 1 ;;
              q2 <- getitem p_x 2 ;; q3 <- getitem p_x 3 ;;
              catmull_rom_point q0 q1 q2 q3 (Num NpFloat (Fin t)) alpha) ts ;;
    ts' <- linspace 0 1 res ;;
    y <- comprehension
           (fun t =>
              q0 <- getitem p_x 0 ;; q1 <- getitem p_x 1 ;;
              q2 <- getitem p_x 2 ;; q3 <- getitem p_x 3 ;;
              catmull_rom_point q0 q1 q2 q3 (Num NpFloat (Fin t)) alpha) ts' ;;
    Ok (x, y).

(** A control value of the first embedding, as a numpy object. *)
Definition inject (v : value) : point :=
  match v with
  | Scalar x => Number x
  | Pair x y => Array x y
  end.

Definition is_array (p : point) : bool :=
  match p with
  | Array _ _ => true
  | _ => false
  end.

Definition is_number (p : point) : bool :=
  match p with
  | Number _ => true
  | _ => false
  end.

(** A 2D point as a numpy array, and as a tuple of Python floats. *)
Definition arr (p : R * R) : point := Array (fst p) (snd p).
Definition tup (p : R * R) : point := Tuple (fst p) (snd p).

End Py.

(** ** Underflow

    In float64 a product whose exact value is smaller in magnitude than
    [2 ** -1075], half the smallest subnormal number, is rounded to zero.
    [tj_underflow] is [tj] with this one effect of rounding kept, on the
    two squares [dx ** 2] and [dy ** 2]. *)

Definition underflow (x : R) : R :=
  if Rlt_dec (Rabs x) (/ 2 ^ 1075) then 0 else x.

Definition tj_underflow (alpha : R) (ti : float) (pi pj : value)
  : result float :=
  '(xi, yi) <- unpack pi ;;
  '(xj, yj) <- unpack pj ;;
  let dx := xj - xi in
  let dy := yj - yi in
  let l := sqrt (underflow (dx ^ 2) + underflow (dy ^ 2)) in
  Ok (ti + fpow l alpha)%fl.

(** ** Arithmetic facts *)

Section FloatFacts.

Lemma fadd_fin (x y : R) : (Fin x + Fin y)%fl = Fin (x + y).
Proof. reflexivity. Qed.

Lemma fsub_fin (x y : R) : (Fin x - Fin y)%fl = Fin (x - y).
Proof. reflexivity. Qed.

Lemma fmul_fin (x y : R) : (Fin x * Fin y)%fl = Fin (x * y).
Proof. reflexivity. Qed.

Lemma fdiv_fin (x y : R) : y <> 0 -> (Fin x / Fin y)%fl = Fin (x / y).
Proof.
  intros Hy. unfold fdiv. destruct (Req_dec_T y 0) as [E | _]; [contradiction | reflexivity].
Qed.

Lemma fdiv_zero (x y : R) : y = 0 -> (Fin x / Fin y)%fl = inf_of_sign x.
Proof.
  intros Hy. unfold fdiv. destruct (Req_dec_T y 0) as [_ | N]; [reflexivity | contradiction].
Qed.

Lemma fmul_nan_r (a : float) : (a * NaN)%fl = NaN.
Proof. destruct a; reflexivity. Qed.

Lemma fmul_nan_l (a : float) : (NaN * a)%fl = NaN.
Proof. destruct a; reflexivity. Qed.

Lemma fadd_nan_r (a : float) : (a + NaN)%fl = NaN.
Proof. destruct a; reflexivity. Qed.

Lemma fadd_nan_l (a : float) : (NaN + a)%fl = NaN.
Proof. destruct a; reflexivity. Qed.

Lemma fpow_alpha0 (l : R) : fpow l 0 = Fin 1.
Proof.
  unfold fpow. destruct (Req_dec_T 0 0) as [_ | N]; [reflexivity | now elim N].
Qed.

Lemma fpow_pos (l alpha : R) : 0 < l -> fpow l alpha = Fin (Rpower l alpha).
Proof.
  intros Hl. unfold fpow.
  destruct (Req_dec_T alpha 0) as [-> | _].
  - now rewrite Rpower_O.
  - destruct (Req_dec_T l 0) as [E | _]; [lra | reflexivity].
Qed.

Lemma fpow_zero_base (alpha : R) : 0 < alpha -> fpow 0 alpha = Fin 0.
Proof.
  intros Ha. unfold fpow.
  destruct (Req_dec_T alpha 0) as [E | _]; [lra |].
  destruct (Req_dec_T 0 0) as [_ | N]; [| now elim N].
  destruct (Rlt_dec 0 alpha) as [_ | N]; [reflexivity | contradiction].
Qed.

Lemma Rpower_gt0 (l alpha : R) : 0 < Rpower l alpha.
Proof. unfold Rpower. apply exp_pos. Qed.

Lemma dist_same (p : R * R) : dist p p = 0.
Proof.
  unfold dist. replace ((fst p - fst p) ^ 2 + (snd p - snd p) ^ 2) with 0 by ring.
  apply sqrt_0.
Qed.

Lemma sq_gt0 (a : R) : a <> 0 -> 0 < a ^ 2.
Proof.
  intros Ha. simpl. rewrite Rmult_1_r.
  destruct (Rlt_dec a 0); [| assert (0 < a) by lra]; nra.
Qed.

Lemma sq_ge0 (a : R) : 0 <= a ^ 2.
Proof. simpl. rewrite Rmult_1_r. nra. Qed.

Lemma dist_pos (p q : R * R) : p <> q -> 0 < dist p q.
Proof.
  intros Hpq. unfold dist. apply sqrt_lt_R0.
  destruct p as [a b], q as [c d]; cbn [fst snd].
  pose proof (sq_ge0 (c - a)) as Hx. pose proof (sq_ge0 (d - b)) as Hy.
  destruct (Req_dec_T c a) as [-> | Ex].
  - destruct (Req_dec_T d b) as [-> | Ey]; [now elim Hpq |].
    assert (0 < (d - b) ^ 2) by (apply sq_gt0; lra). lra.
  - assert (0 < (c - a) ^ 2) by (apply sq_gt0; lra). lra.
Qed.

End FloatFacts.

(** ** The knot sequence *)

Section Knots.

Lemma tj_pairs (alpha : R) (ti : float) (p q : R * R) :
  tj alpha ti (pt p) (pt q) = Ok (ti + fpow (dist p q) alpha)%fl.
Proof. reflexivity. Qed.

Lemma tj_scalar_l (alpha x : R) (ti : float) (q : value) :
  tj alpha ti (Scalar x) q = Raise TypeError.
Proof. reflexivity. Qed.

Lemma knots_pairs (p0 p1 p2 p3 : R * R) (alpha : R) :
  knots (pt p0) (pt p1) (pt p2) (pt p3) alpha = Ok (knots2d p0 p1 p2 p3 alpha).
Proof. reflexivity. Qed.

Lemma knots2d_distinct (p0 p1 p2 p3 : R * R) (alpha : R) :
  p0 <> p1 -> p1 <> p2 -> p2 <> p3 ->
  knots2d p0 p1 p2 p3 alpha =
    (Fin 0,
     Fin (0 + Rpower (dist p0 p1) alpha),
     Fin (0 + Rpower (dist p0 p1) alpha + Rpower (dist p1 p2) alpha),
     Fin (0 + Rpower (dist p0 p1) alpha + Rpower (dist p1 p2) alpha
          + Rpower (dist p2 p3) alpha)).
Proof.
  intros H01 H12 H23. unfold knots2d.
  rewrite !fpow_pos by now apply dist_pos.
  reflexivity.
Qed.

Lemma knots2d_uniform (p0 p1 p2 p3 : R * R) :
  knots2d p0 p1 p2 p3 0 = (Fin 0, Fin (0 + 1), Fin (0 + 1 + 1), Fin (0 + 1 + 1 + 1)).
Proof. unfold knots2d. rewrite !fpow_alpha0. reflexivity. Qed.

(** The knot spacing is the distance in the plane, not a distance along
    one axis: from [(0,0)] to [(3,4)] with [alpha = 1] the knot advances
    by [5]. *)
Lemma tj_uses_both_axes : tj 1 (Fin 0) (pt (0, 0)) (pt (3, 4)) = Ok (Fin 5).
Proof.
  rewrite tj_pairs.
  assert (E : dist (0, 0) (3, 4) = 5).
  { unfold dist. cbn [fst snd].
    replace ((3 - 0) ^ 2 + (4 - 0) ^ 2) with (5 * 5) by ring.
    apply sqrt_square. lra. }
  rewrite E, fpow_pos, Rpower_1, fadd_fin by lra.
  do 2 f_equal. lra.
Qed.

(** In exact arithmetic: for a control quad whose consecutive points are pairwise distinct
    and an exponent [alpha] in [[0,1]], the knots computed by
    [catmull_rom_point] are [t0 = 0] and, each time, the previous knot plus
    the Euclidean distance between the two points raised to [alpha]; they
    satisfy [t0 < t1 < t2 < t3]. *)
Theorem knots_strictly_increasing (p0 p1 p2 p3 : R * R) (alpha : R) :
  p0 <> p1 -> p1 <> p2 -> p2 <> p3 -> 0 <= alpha <= 1 ->
  exists t0 t1 t2 t3 : float,
    knots (pt p0) (pt p1) (pt p2) (pt p3) alpha = Ok (t0, t1, t2, t3) /\
    t0 = Fin 0 /\
    t1 = (t0 + Fin (Rpower (dist p0 p1) alpha))%fl /\
    t2 = (t1 + Fin (Rpower (dist p1 p2) alpha))%fl /\
    t3 = (t2 + Fin (Rpower (dist p2 p3) alpha))%fl /\
    flt t0 t1 /\ flt t1 t2 /\ flt t2 t3.
Proof.
  intros H01 H12 H23 _.
  rewrite knots_pairs, knots2d_distinct by assumption.
  pose proof (Rpower_gt0 (dist p0 p1) alpha).
  pose proof (Rpower_gt0 (dist p1 p2) alpha).
  pose proof (Rpower_gt0 (dist p2 p3) alpha).
  do 4 eexists. split; [reflexivity |].
  repeat split; simpl; lra.
Qed.

Lemma knots_strictly_increasing_witness :
  exists t0 t1 t2 t3 : float,
    knots (pt (0, 0)) (pt (1, 2)) (pt (2, -1)) (pt (3, 1)) (1 / 2)
      = Ok (t0, t1, t2, t3) /\
    t0 = Fin 0 /\
    t1 = (t0 + Fin (Rpower (dist (0, 0) (1, 2)) (1 / 2)))%fl /\
    t2 = (t1 + Fin (Rpower (dist (1, 2) (2, -1)) (1 / 2)))%fl /\
    t3 = (t2 + Fin (Rpower (dist (2, -1) (3, 1)) (1 / 2)))%fl /\
    flt t0 t1 /\ flt t1 t2 /\ flt t2 t3.
Proof.
  apply (knots_strictly_increasing (0, 0) (1, 2) (2, -1) (3, 1) (1 / 2)).
  - intros E. injection E as E1 E2. lra.
  - intros E. injection E as E1 E2. lra.
  - intros E. injection E as E1 E2. lra.
  - lra.
Defined.

(** C6, as the code has it.  For coinciding points and a running knot
    [ti], [tj] returns [ti] itself when [alpha] lies in [(0,1]]: the
    distance is zero and so is its [alpha]-th power. *)
Theorem tj_coincident (alpha ti : R) (p : R * R) :
  0 < alpha <= 1 ->
  tj alpha (Fin ti) (pt p) (pt p) = Ok (Fin ti).
Proof.
  intros [Ha _].
  rewrite tj_pairs, dist_same, fpow_zero_base by assumption.
  rewrite fadd_fin. do 2 f_equal. lra.
Qed.

Lemma tj_coincident_witness :
  tj (1 / 2) (Fin 3) (pt (1, 2)) (pt (1, 2)) = Ok (Fin 3).
Proof. apply (tj_coincident (1 / 2) 3 (1, 2)). lra. Defined.

(** C6 fails at [alpha = 0]: a zero distance raised to the power zero is
    one, so the knot advances by one. *)
Lemma tj_coincident_uniform_counterexample :
  tj 0 (Fin 0) (pt (0, 0)) (pt (0, 0)) = Ok (Fin 1) /\
  tj 0 (Fin 0) (pt (0, 0)) (pt (0, 0)) <> Ok (Fin 0).
Proof.
  assert (E : tj 0 (Fin 0) (pt (0, 0)) (pt (0, 0)) = Ok (Fin 1)).
  { rewrite tj_pairs, fpow_alpha0, fadd_fin. do 2 f_equal. lra. }
  split; [exact E |].
  rewrite E. intros C. injection C as C. lra.
Qed.

End Knots.

(** ** Evaluation of one point *)

Section Segment.

Lemma segment_pairs (K : float * float * float * float)
  (p0 p1 p2 p3 : R * R) (u : float) :
  segment K (lift (pt p0)) (lift (pt p1)) (lift (pt p2)) (lift (pt p3)) u =
    Pair (channel K (Fin (fst p0)) (Fin (fst p1)) (Fin (fst p2)) (Fin (fst p3)) u)
         (channel K (Fin (snd p0)) (Fin (snd p1)) (Fin (snd p2)) (Fin (snd p3)) u).
Proof. destruct K as [[[t0 t1] t2] t3]. reflexivity. Qed.

Lemma blend1_fin (u v tlo thi t : R) :
  thi <> tlo ->
  blend1 (Fin u) (Fin v) (Fin tlo) (Fin thi) (Fin t) = Fin (blendR u v tlo thi t).
Proof.
  intros H. unfold blend1, blendR.
  rewrite !fsub_fin, !fdiv_fin by lra. reflexivity.
Qed.

Lemma channel_fin (t0 t1 t2 t3 c0 c1 c2 c3 u : R) :
  t0 < t1 -> t1 < t2 -> t2 < t3 ->
  channel (Fin t0, Fin t1, Fin t2, Fin t3) (Fin c0) (Fin c1) (Fin c2) (Fin c3) (Fin u)
    = Fin (channelR t0 t1 t2 t3 c0 c1 c2 c3 u).
Proof.
  intros H01 H12 H23. unfold channel, channelR.
  rewrite !blend1_fin by lra. reflexivity.
Qed.

Lemma channelR_at_t1 (t0 t1 t2 t3 c0 c1 c2 c3 : R) :
  t0 < t1 -> t1 < t2 -> t2 < t3 ->
  channelR t0 t1 t2 t3 c0 c1 c2 c3 t1 = c1.
Proof. intros. unfold channelR, blendR. field. repeat split; lra. Qed.

Lemma channelR_at_t2 (t0 t1 t2 t3 c0 c1 c2 c3 : R) :
  t0 < t1 -> t1 < t2 -> t2 < t3 ->
  channelR t0 t1 t2 t3 c0 c1 c2 c3 t2 = c2.
Proof. intros. unfold channelR, blendR. field. repeat split; lra. Qed.

(** On a linear channel with knots [0,1,2,3] the construction is the
    identity of the evaluation parameter. *)
Lemma channelR_linear (u : R) : channelR 0 1 2 3 0 1 2 3 u = u.
Proof. unfold channelR, blendR. field. Qed.

Lemma channelR_constant (t0 t1 t2 t3 c u : R) :
  t0 < t1 -> t1 < t2 -> t2 < t3 ->
  channelR t0 t1 t2 t3 c c c c u = c.
Proof. intros. unfold channelR, blendR. field. repeat split; lra. Qed.

Lemma catmull_rom_point_segment (p0 p1 p2 p3 : value) (t alpha : R) :
  catmull_rom_point p0 p1 p2 p3 t alpha =
    (K <- knots p0 p1 p2 p3 alpha ;;
     Ok (segment K (lift p0) (lift p1) (lift p2) (lift p3) (Fin t))).
Proof.
  unfold catmull_rom_point, knots.
  destruct (tj alpha (Fin 0) p0 p1) as [t1 | e]; [| reflexivity]. cbn [bind].
  destruct (tj alpha t1 p1 p2) as [t2 | e]; [| reflexivity]. cbn [bind].
  destruct (tj alpha t2 p2 p3) as [t3 | e]; reflexivity.
Qed.

Lemma catmull_rom_point_pairs (p0 p1 p2 p3 : R * R) (t alpha : R) :
  catmull_rom_point (pt p0) (pt p1) (pt p2) (pt p3) t alpha =
    Ok (Pair
          (channel (knots2d p0 p1 p2 p3 alpha)
             (Fin (fst p0)) (Fin (fst p1)) (Fin (fst p2)) (Fin (fst p3)) (Fin t))
          (channel (knots2d p0 p1 p2 p3 alpha)
             (Fin (snd p0)) (Fin (snd p1)) (Fin (snd p2)) (Fin (snd p3)) (Fin t))).
Proof.
  rewrite catmull_rom_point_segment, knots_pairs. cbn [bind].
  now rewrite segment_pairs.
Qed.

Lemma catmull_rom_point_scalar (x : R) (p1 p2 p3 : value) (t alpha : R) :
  catmull_rom_point (Scalar x) p1 p2 p3 t alpha = Raise TypeError.
Proof. reflexivity. Qed.

(** With [alpha = 0] every knot interval has length one, whatever the
    points are. *)
Lemma catmull_rom_point_uniform (p0 p1 p2 p3 : R * R) (t : R) :
  catmull_rom_point (pt p0) (pt p1) (pt p2) (pt p3) t 0 =
    Ok (Pair
          (Fin (channelR 0 1 2 3 (fst p0) (fst p1) (fst p2) (fst p3) t))
          (Fin (channelR 0 1 2 3 (snd p0) (snd p1) (snd p2) (snd p3) t))).
Proof.
  rewrite catmull_rom_point_pairs, knots2d_uniform.
  replace (0 + 1 + 1 + 1) with 3 by lra.
  replace (0 + 1 + 1) with 2 by lra.
  replace (0 + 1) with 1 by lra.
  rewrite !channel_fin by lra. reflexivity.
Qed.

(** C2, as the code has it.  For four 2D control points, [catmull_rom_point]
    computes the knots from the 2D distances and then performs the three
    first-level blends, the two second-level blends and the final blend of
    the specification at the caller's [t] itself: no remapping into the
    central knot interval takes place. *)
Theorem blends_at_caller_parameter (p0 p1 p2 p3 : R * R) (t alpha : R) :
  catmull_rom_point (pt p0) (pt p1) (pt p2) (pt p3) t alpha =
    Ok (segment (knots2d p0 p1 p2 p3 alpha)
          (lift (pt p0)) (lift (pt p1)) (lift (pt p2)) (lift (pt p3)) (Fin t)).
Proof.
  rewrite catmull_rom_point_segment, knots_pairs. reflexivity.
Qed.

(** C2 fails: on the collinear quad [(0,0),(1,0),(2,0),(3,0)] with
    [alpha = 0] the knots are [0,1,2,3]; at [t = 0] the code blends at
    parameter [0] and returns [(0,0)], whereas blending at the remapped
    parameter [t1 + 0*(t2-t1) = 1] gives [(1,0)]. *)
Lemma remapping_counterexample :
  catmull_rom_point (pt (0, 0)) (pt (1, 0)) (pt (2, 0)) (pt (3, 0)) 0 0
    = Ok (Pair (Fin 0) (Fin 0)) /\
  segment (knots2d (0, 0) (1, 0) (2, 0) (3, 0) 0)
    (lift (pt (0, 0))) (lift (pt (1, 0))) (lift (pt (2, 0))) (lift (pt (3, 0)))
    (remap (knots2d (0, 0) (1, 0) (2, 0) (3, 0) 0) (Fin 0))
    = Pair (Fin 1) (Fin 0) /\
  catmull_rom_point (pt (0, 0)) (pt (1, 0)) (pt (2, 0)) (pt (3, 0)) 0 0 <>
    Ok (segment (knots2d (0, 0) (1, 0) (2, 0) (3, 0) 0)
          (lift (pt (0, 0))) (lift (pt (1, 0))) (lift (pt (2, 0))) (lift (pt (3, 0)))
          (remap (knots2d (0, 0) (1, 0) (2, 0) (3, 0) 0) (Fin 0))).
Proof.
  assert (E1 : catmull_rom_point (pt (0, 0)) (pt (1, 0)) (pt (2, 0)) (pt (3, 0)) 0 0
               = Ok (Pair (Fin 0) (Fin 0))).
  { rewrite catmull_rom_point_uniform. cbn [fst snd].
    rewrite channelR_linear, channelR_constant by lra. reflexivity. }
  assert (E2 : segment (knots2d (0, 0) (1, 0) (2, 0) (3, 0) 0)
                 (lift (pt (0, 0))) (lift (pt (1, 0))) (lift (pt (2, 0)))
                 (lift (pt (3, 0)))
                 (remap (knots2d (0, 0) (1, 0) (2, 0) (3, 0) 0) (Fin 0))
               = Pair (Fin 1) (Fin 0)).
  { rewrite segment_pairs, knots2d_uniform. cbn [fst snd remap].
    rewrite fsub_fin, fmul_fin, fadd_fin.
    replace (0 + 1 + 0 * (0 + 1 + 1 - (0 + 1))) with 1 by lra.
    replace (0 + 1 + 1 + 1) with 3 by lra.
    replace (0 + 1 + 1) with 2 by lra.
    replace (0 + 1) with 1 by lra.
    rewrite !channel_fin by lra.
    rewrite channelR_linear, channelR_constant by lra. reflexivity. }
  split; [exact E1 |]. split; [exact E2 |].
  rewrite E1, E2. intros C. injection C as C. lra.
Qed.

(** C1, as the code has it.  For pairwise distinct consecutive points and
    [alpha] in [[0,1]], the knots are finite and [catmull_rom_point]
    returns exactly [p1] when its argument [t] is the knot [t1], and
    exactly [p2] when [t] is the knot [t2]. *)
Theorem interpolation_at_knots (p0 p1 p2 p3 : R * R) (alpha : R) :
  p0 <> p1 -> p1 <> p2 -> p2 <> p3 -> 0 <= alpha <= 1 ->
  exists t0 t1 t2 t3 : R,
    knots (pt p0) (pt p1) (pt p2) (pt p3) alpha
      = Ok (Fin t0, Fin t1, Fin t2, Fin t3) /\
    catmull_rom_point (pt p0) (pt p1) (pt p2) (pt p3) t1 alpha
      = Ok (lift (pt p1)) /\
    catmull_rom_point (pt p0) (pt p1) (pt p2) (pt p3) t2 alpha
      = Ok (lift (pt p2)).
Proof.
  intros H01 H12 H23 _.
  pose proof (Rpower_gt0 (dist p0 p1) alpha) as G1.
  pose proof (Rpower_gt0 (dist p1 p2) alpha) as G2.
  pose proof (Rpower_gt0 (dist p2 p3) alpha) as G3.
  do 4 eexists.
  rewrite knots_pairs, !catmull_rom_point_pairs, knots2d_distinct by assumption.
  split; [reflexivity |].
  rewrite !channel_fin by lra.
  rewrite !channelR_at_t1, !channelR_at_t2 by lra.
  split; reflexivity.
Qed.

Lemma interpolation_at_knots_witness :
  exists t0 t1 t2 t3 : R,
    knots (pt (0, 0)) (pt (1, 2)) (pt (2, -1)) (pt (3, 1)) (1 / 2)
      = Ok (Fin t0, Fin t1, Fin t2, Fin t3) /\
    catmull_rom_point (pt (0, 0)) (pt (1, 2)) (pt (2, -1)) (pt (3, 1)) t1 (1 / 2)
      = Ok (lift (pt (1, 2))) /\
    catmull_rom_point (pt (0, 0)) (pt (1, 2)) (pt (2, -1)) (pt (3, 1)) t2 (1 / 2)
      = Ok (lift (pt (2, -1))).
Proof.
  apply (interpolation_at_knots (0, 0) (1, 2) (2, -1) (3, 1) (1 / 2)).
  - intros E. injection E as E1 E2. lra.
  - intros E. injection E as E1 E2. lra.
  - intros E. injection E as E1 E2. lra.
  - lra.
Defined.

(** C1 fails: on the collinear quad [(0,0),(1,0),(2,0),(3,0)] with
    [alpha = 0] (knots [0,1,2,3]) the code returns [p0 = (0,0)], not
    [p1 = (1,0)], at [t = 0], and [p1], not [p2 = (2,0)], at [t = 1]. *)
Lemma interpolation_counterexample :
  catmull_rom_point (pt (0, 0)) (pt (1, 0)) (pt (2, 0)) (pt (3, 0)) 0 0
    = Ok (Pair (Fin 0) (Fin 0)) /\
  catmull_rom_point (pt (0, 0)) (pt (1, 0)) (pt (2, 0)) (pt (3, 0)) 0 0
    <> Ok (lift (pt (1, 0))) /\
  catmull_rom_point (pt (0, 0)) (pt (1, 0)) (pt (2, 0)) (pt (3, 0)) 1 0
    = Ok (Pair (Fin 1) (Fin 0)) /\
  catmull_rom_point (pt (0, 0)) (pt (1, 0)) (pt (2, 0)) (pt (3, 0)) 1 0
    <> Ok (lift (pt (2, 0))).
Proof.
  rewrite !catmull_rom_point_uniform. cbn [fst snd pt lift].
  rewrite !channelR_linear, !channelR_constant by lra.
  repeat split; try reflexivity; intros C; injection C as C; lra.
Qed.

(** *** Coinciding control points *)

Lemma fpow_fin (l alpha : R) : 0 < alpha -> exists d : R, fpow l alpha = Fin d.
Proof.
  intros Ha. unfold fpow.
  destruct (Req_dec_T alpha 0) as [E | _]; [lra |].
  destruct (Req_dec_T l 0) as [_ | _]; [| eexists; reflexivity].
  destruct (Rlt_dec 0 alpha) as [_ | N]; [eexists; reflexivity | contradiction].
Qed.

Lemma blend1_nan_l (v tlo thi t : float) : blend1 NaN v tlo thi t = NaN.
Proof. unfold blend1. now rewrite fmul_nan_r, fadd_nan_l. Qed.

Lemma blend1_nan_r (u tlo thi t : float) : blend1 u NaN tlo thi t = NaN.
Proof. unfold blend1. now rewrite fmul_nan_r, fadd_nan_r. Qed.

(** A blend of a value with itself over a knot interval of length zero:
    the two weights are [nan], or infinities of opposite signs. *)
Lemma blend1_degenerate (c lo t : R) :
  blend1 (Fin c) (Fin c) (Fin lo) (Fin (lo + 0)) (Fin t) = NaN.
Proof.
  unfold blend1. rewrite !fsub_fin, !fdiv_zero by lra.
  unfold inf_of_sign.
  destruct (Rlt_dec 0 (lo + 0 - t)), (Rlt_dec (lo + 0 - t) 0),
    (Rlt_dec 0 (t - lo)), (Rlt_dec (t - lo) 0); try lra; cbn [fmul fadd];
    try reflexivity; unfold inf_of_sign;
    destruct (Rlt_dec 0 c), (Rlt_dec c 0), (Rlt_dec 0 (- c)), (Rlt_dec (- c) 0);
    try lra; reflexivity.
Qed.

Lemma channel_degenerate_01 (t2 t3 c2 c3 : float) (t0 c u : R) :
  channel (Fin t0, Fin (t0 + 0), t2, t3) (Fin c) (Fin c) c2 c3 (Fin u) = NaN.
Proof.
  unfold channel. now rewrite blend1_degenerate, !blend1_nan_l.
Qed.

Lemma channel_degenerate_12 (t0 t3 c0 c3 : float) (t1 c u : R) :
  channel (t0, Fin t1, Fin (t1 + 0), t3) c0 (Fin c) (Fin c) c3 (Fin u) = NaN.
Proof.
  unfold channel. now rewrite blend1_degenerate, blend1_nan_r, !blend1_nan_l.
Qed.

Lemma channel_degenerate_23 (t0 t1 c0 c1 : float) (t2 c u : R) :
  channel (t0, t1, Fin t2, Fin (t2 + 0)) c0 c1 (Fin c) (Fin c) (Fin u) = NaN.
Proof.
  unfold channel. now rewrite blend1_degenerate, !blend1_nan_r.
Qed.

Lemma knots2d_fin (p0 p1 p2 p3 : R * R) (alpha : R) :
  0 < alpha ->
  exists d1 d2 d3 : R,
    fpow (dist p0 p1) alpha = Fin d1 /\
    fpow (dist p1 p2) alpha = Fin d2 /\
    fpow (dist p2 p3) alpha = Fin d3 /\
    knots2d p0 p1 p2 p3 alpha =
      (Fin 0, Fin (0 + d1), Fin (0 + d1 + d2), Fin (0 + d1 + d2 + d3)).
Proof.
  intros Ha.
  destruct (fpow_fin (dist p0 p1) alpha Ha) as [d1 E1].
  destruct (fpow_fin (dist p1 p2) alpha Ha) as [d2 E2].
  destruct (fpow_fin (dist p2 p3) alpha Ha) as [d3 E3].
  exists d1, d2, d3. unfold knots2d. rewrite E1, E2, E3. repeat split.
Qed.

(** With numpy operands: when two consecutive control points coincide
    [catmull_rom_point] raises nothing: it computes the knots and all the
    blends and returns a value; for [alpha] in [(0,1]] the knot interval
    between the coinciding points has length zero and both coordinates of
    the returned point are [nan]. *)
Theorem coinciding_points_not_rejected (p0 p1 p2 p3 : R * R) (t alpha : R) :
  p0 = p1 \/ p1 = p2 \/ p2 = p3 -> 0 <= alpha <= 1 ->
  (exists P : obj,
     catmull_rom_point (pt p0) (pt p1) (pt p2) (pt p3) t alpha = Ok P) /\
  (0 < alpha ->
     catmull_rom_point (pt p0) (pt p1) (pt p2) (pt p3) t alpha
       = Ok (Pair NaN NaN)).
Proof.
  intros Hc _. rewrite catmull_rom_point_pairs.
  split; [eexists; reflexivity |].
  intros Ha.
  destruct (knots2d_fin p0 p1 p2 p3 alpha Ha) as (d1 & d2 & d3 & E1 & E2 & E3 & EK).
  rewrite EK.
  destruct Hc as [E | [E | E]]; subst.
  - rewrite dist_same, fpow_zero_base in E1 by assumption.
    injection E1 as <-. now rewrite !channel_degenerate_01.
  - rewrite dist_same, fpow_zero_base in E2 by assumption.
    injection E2 as <-. now rewrite !channel_degenerate_12.
  - rewrite dist_same, fpow_zero_base in E3 by assumption.
    injection E3 as <-. now rewrite !channel_degenerate_23.
Qed.

Lemma coinciding_points_not_rejected_witness :
  (exists P : obj,
     catmull_rom_point (pt (0, 0)) (pt (1, 2)) (pt (1, 2)) (pt (3, 1)) (1 / 4) (1 / 2)
       = Ok P) /\
  (0 < 1 / 2 ->
     catmull_rom_point (pt (0, 0)) (pt (1, 2)) (pt (1, 2)) (pt (3, 1)) (1 / 4) (1 / 2)
       = Ok (Pair NaN NaN)).
Proof.
  apply (coinciding_points_not_rejected (0, 0) (1, 2) (1, 2) (3, 1) (1 / 4) (1 / 2)).
  - right. left. reflexivity.
  - lra.
Defined.


End Segment.

(** ** Sampling a curve *)

Section Sampler.

Lemma comprehension_map {A B : Type} (f : A -> result B) (g : A -> B) (ts : list A) :
  (forall t, In t ts -> f t = Ok (g t)) ->
  comprehension f ts = Ok (map g ts).
Proof.
  induction ts as [| t ts IH]; intros H; [reflexivity |].
  cbn [comprehension map]. rewrite (H t) by now left. cbn [bind].
  rewrite IH by (intros u Hu; apply H; now right). reflexivity.
Qed.

Lemma comprehension_raise {A B : Type} (f : A -> result B) (e : exn)
  (t : A) (ts : list A) :
  f t = Raise e -> comprehension f (t :: ts) = Raise e.
Proof. intros H. cbn [comprehension]. now rewrite H. Qed.

Lemma length_4 {A : Type} (p : list A) :
  length p = 4%nat -> exists a b c d, p = [a; b; c; d].
Proof.
  destruct p as [| a [| b [| c [| d [| e p]]]]]; try discriminate.
  intros _. now exists a, b, c, d.
Qed.

Lemma linspace_nonneg (res : Z) :
  (0 <= res)%Z ->
  linspace 0 1 res =
    Ok (map (fun k : nat => INR k * ((1 - 0) / IZR res) + 0) (seq 0 (Z.to_nat res))).
Proof.
  intros H. unfold linspace.
  destruct (Z.ltb_spec res 0) as [L | _]; [lia | reflexivity].
Qed.

Lemma linspace_negative (res : Z) :
  (res < 0)%Z -> linspace 0 1 res = Raise ValueError.
Proof.
  intros H. unfold linspace.
  destruct (Z.ltb_spec res 0) as [_ | L]; [reflexivity | lia].
Qed.

Lemma linspace_param (res : Z) (k : nat) :
  (1 <= res)%Z -> INR k * ((1 - 0) / IZR res) + 0 = INR k / IZR res.
Proof.
  intros H. assert (0 < IZR res) by (apply IZR_lt; lia). field. lra.
Qed.

Lemma param_range (res : Z) (k : nat) :
  (k < Z.to_nat res)%nat -> 0 <= INR k / IZR res < 1.
Proof.
  intros Hk.
  assert (Hres : (1 <= res)%Z) by lia.
  assert (Hpos : 0 < IZR res) by (apply IZR_lt; lia).
  assert (Hk0 : 0 <= INR k) by apply pos_INR.
  assert (Hk1 : INR k < IZR res).
  { rewrite INR_IZR_INZ. apply IZR_lt. lia. }
  split.
  - apply Rmult_le_pos; [assumption |]. left. now apply Rinv_0_lt_compat.
  - apply (Rmult_lt_reg_r (IZR res)); [assumption |].
    unfold Rdiv. rewrite Rmult_assoc, Rinv_l by lra. lra.
Qed.

(** The body of [catmull_rom] once the assertion has passed. *)
Lemma catmull_rom_quad (q0 q1 q2 q3 : value) (p_y : list value) (res : Z) (alpha : R) :
  length p_y = 4%nat ->
  catmull_rom [q0; q1; q2; q3] p_y res alpha =
    (ts <- linspace 0 1 res ;;
     x <- comprehension (fun t => catmull_rom_point q0 q1 q2 q3 t alpha) ts ;;
     Ok (x, x)).
Proof.
  intros Hy. unfold catmull_rom. rewrite Hy.
  cbn [length Nat.eqb andb negb getitem nth_error bind].
  destruct (linspace 0 1 res) as [ts | e]; [| reflexivity]. cbn [bind].
  destruct (comprehension _ ts) as [x | e]; reflexivity.
Qed.

Lemma catmull_rom_pairs (p0 p1 p2 p3 : R * R) (p_y : list value) (res : Z) (alpha : R) :
  length p_y = 4%nat ->
  catmull_rom [pt p0; pt p1; pt p2; pt p3] p_y res alpha =
    (ts <- linspace 0 1 res ;;
     Ok (map (curve_point p0 p1 p2 p3 alpha) ts,
         map (curve_point p0 p1 p2 p3 alpha) ts)).
Proof.
  intros Hy. rewrite catmull_rom_quad by assumption.
  destruct (linspace 0 1 res) as [ts | e]; [| reflexivity]. cbn [bind].
  rewrite (comprehension_map _ (curve_point p0 p1 p2 p3 alpha)).
  - reflexivity.
  - intros t _. apply catmull_rom_point_pairs.
Qed.

Lemma catmull_rom_assertion (p_x p_y : list value) (res : Z) (alpha : R) :
  length p_x <> 4%nat \/ length p_y <> 4%nat ->
  catmull_rom p_x p_y res alpha = Raise AssertionError.
Proof.
  intros H. unfold catmull_rom.
  destruct (Nat.eqb_spec (length p_x) (length p_y)) as [E | N];
    destruct (Nat.eqb_spec (length p_y) 4) as [E' | N']; try reflexivity.
  exfalso. destruct H as [H | H]; apply H; congruence.
Qed.

(** Channels of plain numbers, as the script at the end of the file passes
    them, cannot be unpacked by [tj]: the first sample raises. *)
Lemma scalar_channels_raise :
  catmull_rom [Scalar 0; Scalar 1; Scalar 2; Scalar 3]
              [Scalar 0; Scalar 2; Scalar (-1); Scalar 1] 5 (1 / 2)
    = Raise TypeError.
Proof.
  rewrite catmull_rom_quad by reflexivity.
  rewrite linspace_nonneg by lia. cbn [bind].
  change (Z.to_nat 5) with 5%nat. cbn [seq map].
  now rewrite (comprehension_raise _ TypeError).
Qed.

Lemma nth_map_in {A B : Type} (f : A -> B) (l : list A) (k : nat) (d : B) (d' : A) :
  (k < length l)%nat -> nth k (map f l) d = f (nth k l d').
Proof.
  revert k. induction l as [| a l IH]; intros k Hk; cbn [length] in Hk; [lia |].
  destruct k as [| k]; [reflexivity |]. cbn [map nth]. apply IH. lia.
Qed.

Lemma first_param : INR 0 * ((1 - 0) / IZR 1) + 0 = 0.
Proof. cbn [INR]. field. Qed.

(** One sample of the collinear quad [(0,0),(1,0),(2,0),(3,0)] with
    [alpha = 0]: the parameter is [0] and the curve point is [(0,0)]. *)
Lemma catmull_rom_linear_example (p_y : list value) :
  length p_y = 4%nat ->
  catmull_rom [pt (0, 0); pt (1, 0); pt (2, 0); pt (3, 0)] p_y 1 0
    = Ok ([Pair (Fin 0) (Fin 0)], [Pair (Fin 0) (Fin 0)]).
Proof.
  intros Hy. rewrite catmull_rom_quad by assumption.
  rewrite linspace_nonneg by lia. cbn [bind].
  change (Z.to_nat 1) with 1%nat. cbn [seq map comprehension].
  rewrite first_param, catmull_rom_point_uniform. cbn [fst snd bind].
  rewrite channelR_linear, channelR_constant by lra. reflexivity.
Qed.

(** X15.  For four 2D control points handed over as [p_x], any 4-element
    [p_y] and a resolution [N >= 1], [catmull_rom] returns sequences of
    exactly [N] points; the point at position [k] is the evaluation at the
    parameter [k/N], for [k = 0..N-1]; these parameters increase with [k]
    and lie in [[0,1)], so [t = 1] is never among them. *)
Theorem sample_count_and_parameters
  (p0 p1 p2 p3 : R * R) (p_y : list value) (N : Z) (alpha : R) :
  length p_y = 4%nat -> (1 <= N)%Z ->
  exists xs ys : list obj,
    catmull_rom [pt p0; pt p1; pt p2; pt p3] p_y N alpha = Ok (xs, ys) /\
    length xs = Z.to_nat N /\ length ys = Z.to_nat N /\
    (forall k : nat, (k < Z.to_nat N)%nat ->
       0 <= INR k / IZR N < 1 /\
       catmull_rom_point (pt p0) (pt p1) (pt p2) (pt p3) (INR k / IZR N) alpha
         = Ok (nth k xs (Scalar NaN)) /\
       catmull_rom_point (pt p0) (pt p1) (pt p2) (pt p3) (INR k / IZR N) alpha
         = Ok (nth k ys (Scalar NaN))) /\
    (forall j k : nat, (j < k)%nat -> INR j / IZR N < INR k / IZR N).
Proof.
  intros Hy HN.
  rewrite catmull_rom_pairs, linspace_nonneg by (assumption || lia). cbn [bind].
  do 2 eexists. split; [reflexivity |].
  rewrite !length_map, length_seq.
  split; [reflexivity |]. split; [reflexivity |].
  assert (Hpos : 0 < IZR N) by (apply IZR_lt; lia).
  split.
  - intros k Hk. split; [now apply param_range |].
    assert (E : nth k (map (curve_point p0 p1 p2 p3 alpha)
                        (map (fun k0 : nat => INR k0 * ((1 - 0) / IZR N) + 0)
                           (seq 0 (Z.to_nat N)))) (Scalar NaN)
                = curve_point p0 p1 p2 p3 alpha (INR k / IZR N)).
    { rewrite (nth_map_in _ _ _ _ 0) by now rewrite length_map, length_seq.
      rewrite (nth_map_in _ _ _ _ 0%nat) by now rewrite length_seq.
      rewrite seq_nth by assumption. cbn [Nat.add].
      now rewrite linspace_param. }
    rewrite E, catmull_rom_point_pairs. split; reflexivity.
  - intros j k Hjk. apply Rmult_lt_compat_r.
    + now apply Rinv_0_lt_compat.
    + now apply lt_INR.
Qed.

Lemma sample_count_and_parameters_witness :
  exists xs ys : list obj,
    catmull_rom [pt (0, 0); pt (1, 2); pt (2, -1); pt (3, 1)]
                [pt (0, 0); pt (1, 2); pt (2, -1); pt (3, 1)] 5 (1 / 2)
      = Ok (xs, ys) /\
    length xs = Z.to_nat 5 /\ length ys = Z.to_nat 5 /\
    (forall k : nat, (k < Z.to_nat 5)%nat ->
       0 <= INR k / IZR 5 < 1 /\
       catmull_rom_point (pt (0, 0)) (pt (1, 2)) (pt (2, -1)) (pt (3, 1))
           (INR k / IZR 5) (1 / 2)
         = Ok (nth k xs (Scalar NaN)) /\
       catmull_rom_point (pt (0, 0)) (pt (1, 2)) (pt (2, -1)) (pt (3, 1))
           (INR k / IZR 5) (1 / 2)
         = Ok (nth k ys (Scalar NaN))) /\
    (forall j k : nat, (j < k)%nat -> INR j / IZR 5 < INR k / IZR 5).
Proof.
  apply (sample_count_and_parameters (0, 0) (1, 2) (2, -1) (3, 1)
           [pt (0, 0); pt (1, 2); pt (2, -1); pt (3, 1)] 5 (1 / 2)).
  - reflexivity.
  - lia.
Defined.

(** X16.  For four 2D control points handed over as [p_x], the knots are
    the ones derived from the 2D Euclidean distances between consecutive
    points, and in both returned sequences every point has its first
    coordinate computed by the 1-D construction on the x-coordinates and
    its second coordinate by the 1-D construction on the y-coordinates,
    both over that one knot sequence. *)
Theorem channels_share_2d_knots
  (p0 p1 p2 p3 : R * R) (p_y : list value) (res : Z) (alpha : R) :
  length p_y = 4%nat -> (0 <= res)%Z ->
  knots (pt p0) (pt p1) (pt p2) (pt p3) alpha = Ok (knots2d p0 p1 p2 p3 alpha) /\
  exists ts : list R,
    linspace 0 1 res = Ok ts /\
    catmull_rom [pt p0; pt p1; pt p2; pt p3] p_y res alpha =
      Ok (map (curve_point p0 p1 p2 p3 alpha) ts,
          map (curve_point p0 p1 p2 p3 alpha) ts).
Proof.
  intros Hy Hres. split; [apply knots_pairs |].
  rewrite catmull_rom_pairs, linspace_nonneg by assumption.
  eexists. split; reflexivity.
Qed.

Lemma channels_share_2d_knots_witness :
  knots (pt (0, 0)) (pt (1, 2)) (pt (2, -1)) (pt (3, 1)) (1 / 2)
    = Ok (knots2d (0, 0) (1, 2) (2, -1) (3, 1) (1 / 2)) /\
  exists ts : list R,
    linspace 0 1 5 = Ok ts /\
    catmull_rom [pt (0, 0); pt (1, 2); pt (2, -1); pt (3, 1)]
                [pt (0, 0); pt (1, 2); pt (2, -1); pt (3, 1)] 5 (1 / 2) =
      Ok (map (curve_point (0, 0) (1, 2) (2, -1) (3, 1) (1 / 2)) ts,
          map (curve_point (0, 0) (1, 2) (2, -1) (3, 1) (1 / 2)) ts).
Proof.
  apply (channels_share_2d_knots (0, 0) (1, 2) (2, -1) (3, 1)
           [pt (0, 0); pt (1, 2); pt (2, -1); pt (3, 1)] 5 (1 / 2)).
  - reflexivity.
  - lia.
Defined.

(** C9, as the code has it.  With 4-element inputs, a negative resolution
    makes [np.linspace] raise [ValueError] and nothing is returned; a
    resolution of zero is accepted and two empty sequences are returned. *)
Theorem nonpositive_resolution (p_x p_y : list value) (res : Z) (alpha : R) :
  length p_x = 4%nat -> length p_y = 4%nat -> (res <= 0)%Z ->
  ((res < 0)%Z -> catmull_rom p_x p_y res alpha = Raise ValueError) /\
  (res = 0%Z -> catmull_rom p_x p_y res alpha = Ok ([], [])).
Proof.
  intros Hx Hy _.
  destruct (length_4 p_x Hx) as (q0 & q1 & q2 & q3 & ->).
  rewrite catmull_rom_quad by assumption. split.
  - intros Hneg. now rewrite linspace_negative.
  - intros ->. reflexivity.
Qed.

Lemma nonpositive_resolution_witness :
  ((-3 < 0)%Z ->
     catmull_rom [pt (0, 0); pt (1, 2); pt (2, -1); pt (3, 1)]
                 [pt (0, 0); pt (1, 2); pt (2, -1); pt (3, 1)] (-3) (1 / 2)
       = Raise ValueError) /\
  ((-3)%Z = 0%Z ->
     catmull_rom [pt (0, 0); pt (1, 2); pt (2, -1); pt (3, 1)]
                 [pt (0, 0); pt (1, 2); pt (2, -1); pt (3, 1)] (-3) (1 / 2)
       = Ok ([], [])).
Proof.
  apply (nonpositive_resolution
           [pt (0, 0); pt (1, 2); pt (2, -1); pt (3, 1)]
           [pt (0, 0); pt (1, 2); pt (2, -1); pt (3, 1)] (-3) (1 / 2)).
  - reflexivity.
  - reflexivity.
  - lia.
Defined.

(** C9 fails: with resolution zero the call returns two empty sequences
    and raises nothing. *)
Lemma zero_resolution_counterexample :
  catmull_rom [pt (0, 0); pt (1, 2); pt (2, -1); pt (3, 1)]
              [pt (0, 0); pt (1, 2); pt (2, -1); pt (3, 1)] 0 (1 / 2)
    = Ok ([], []) /\
  forall e : exn,
    catmull_rom [pt (0, 0); pt (1, 2); pt (2, -1); pt (3, 1)]
                [pt (0, 0); pt (1, 2); pt (2, -1); pt (3, 1)] 0 (1 / 2)
      <> Raise e.
Proof.
  assert (E : catmull_rom [pt (0, 0); pt (1, 2); pt (2, -1); pt (3, 1)]
                [pt (0, 0); pt (1, 2); pt (2, -1); pt (3, 1)] 0 (1 / 2)
              = Ok ([], [])) by reflexivity.
  split; [exact E |]. intros e. rewrite E. discriminate.
Qed.

(** C10.  Whenever [catmull_rom] returns, its two sequences are equal and
    are both the evaluations of the control values [p_x] at the sample
    parameters; replacing [p_y] by any sequence of the same length leaves
    the result unchanged. *)
Theorem returned_sequences_identical
  (p_x p_y : list value) (res : Z) (alpha : R) (xs ys : list obj) :
  catmull_rom p_x p_y res alpha = Ok (xs, ys) ->
  xs = ys /\
  (exists ts : list R,
     linspace 0 1 res = Ok ts /\
     comprehension
       (fun t =>
          q0 <- getitem p_x 0 ;; q1 <- getitem p_x 1 ;;
          q2 <- getitem p_x 2 ;; q3 <- getitem p_x 3 ;;
          catmull_rom_point q0 q1 q2 q3 t alpha) ts = Ok xs) /\
  (forall p_y' : list value,
     length p_y' = length p_y ->
     catmull_rom p_x p_y' res alpha = Ok (xs, ys)).
Proof.
  intros H.
  assert (Hy : forall p_y' : list value, length p_y' = length p_y ->
                 catmull_rom p_x p_y' res alpha = Ok (xs, ys)).
  { intros p_y' E. rewrite <- H. unfold catmull_rom. now rewrite E. }
  unfold catmull_rom in H.
  destruct (negb _); [discriminate |].
  destruct (linspace 0 1 res) as [ts | e]; [| discriminate]. cbn [bind] in H.
  destruct (comprehension _ ts) as [x | e] eqn:Ex; [| discriminate].
  cbn [bind] in H. injection H as <- <-.
  split; [reflexivity |]. split; [| exact Hy].
  exists ts. split; [reflexivity | exact Ex].
Qed.

Lemma returned_sequences_identical_witness :
  [Pair (Fin 0) (Fin 0)] = [Pair (Fin 0) (Fin 0)] /\
  (exists ts : list R,
     linspace 0 1 1 = Ok ts /\
     comprehension
       (fun t =>
          q0 <- getitem [pt (0, 0); pt (1, 0); pt (2, 0); pt (3, 0)] 0 ;;
          q1 <- getitem [pt (0, 0); pt (1, 0); pt (2, 0); pt (3, 0)] 1 ;;
          q2 <- getitem [pt (0, 0); pt (1, 0); pt (2, 0); pt (3, 0)] 2 ;;
          q3 <- getitem [pt (0, 0); pt (1, 0); pt (2, 0); pt (3, 0)] 3 ;;
          catmull_rom_point q0 q1 q2 q3 t 0) ts = Ok [Pair (Fin 0) (Fin 0)]) /\
  (forall p_y' : list value,
     length p_y' = length [pt (0, 1); pt (1, 1); pt (2, 1); pt (3, 1)] ->
     catmull_rom [pt (0, 0); pt (1, 0); pt (2, 0); pt (3, 0)] p_y' 1 0
       = Ok ([Pair (Fin 0) (Fin 0)], [Pair (Fin 0) (Fin 0)])).
Proof.
  apply (returned_sequences_identical
           [pt (0, 0); pt (1, 0); pt (2, 0); pt (3, 0)]
           [pt (0, 1); pt (1, 1); pt (2, 1); pt (3, 1)] 1 0).
  apply catmull_rom_linear_example. reflexivity.
Defined.

(** C3 fails on the code.  With [p_x] the collinear quad
    [(0,0),(1,0),(2,0),(3,0)] and [p_y] the quad [(0,1),(1,1),(2,1),(3,1)],
    one sample and [alpha = 0], the second returned sequence is [[(0,0)]],
    the evaluation of [p_x]; computing it from [p_y], as the first one is
    computed from [p_x], would give [[(0,1)]]. *)
Theorem y_sequence_computed_from_p_x :
  catmull_rom [pt (0, 0); pt (1, 0); pt (2, 0); pt (3, 0)]
              [pt (0, 1); pt (1, 1); pt (2, 1); pt (3, 1)] 1 0
    = Ok ([Pair (Fin 0) (Fin 0)], [Pair (Fin 0) (Fin 0)]) /\
  catmull_rom_per_channel [pt (0, 0); pt (1, 0); pt (2, 0); pt (3, 0)]
              [pt (0, 1); pt (1, 1); pt (2, 1); pt (3, 1)] 1 0
    = Ok ([Pair (Fin 0) (Fin 0)], [Pair (Fin 0) (Fin 1)]).
Proof.
  split; [now apply catmull_rom_linear_example |].
  unfold catmull_rom_per_channel.
  cbn [length Nat.eqb andb negb getitem nth_error bind].
  rewrite linspace_nonneg by lia. cbn [bind].
  change (Z.to_nat 1) with 1%nat. cbn [seq map comprehension].
  rewrite first_param, !catmull_rom_point_uniform. cbn [fst snd bind].
  rewrite !channelR_linear, !channelR_constant by lra. reflexivity.
Qed.

End Sampler.

(** ** Further properties of the knot spacing *)

Section KnotSpacing.

Lemma dist_sym (p q : R * R) : dist p q = dist q p.
Proof. unfold dist. f_equal. ring. Qed.

Lemma dist_shift (v p q : R * R) : dist (shift v p) (shift v q) = dist p q.
Proof. unfold dist, shift. cbn [fst snd]. f_equal. ring. Qed.

Lemma dist_zero_eq (p q : R * R) : dist p q = 0 -> p = q.
Proof.
  intros H. destruct p as [a b], q as [c d].
  destruct (Req_dec_T a c) as [-> | Na].
  - destruct (Req_dec_T b d) as [-> | Nb]; [reflexivity |].
    assert (0 < dist (c, b) (c, d)) by (apply dist_pos; congruence). lra.
  - assert (0 < dist (a, b) (c, d)) by (apply dist_pos; congruence). lra.
Qed.

Lemma point_eq_dec (p q : R * R) : {p = q} + {p <> q}.
Proof.
  destruct p as [a b], q as [c d].
  destruct (Req_dec_T a c) as [-> | Na]; [| right; congruence].
  destruct (Req_dec_T b d) as [-> | Nb]; [now left | right; congruence].
Qed.

(** X1.  The knot step does not depend on the order of the two points. *)
Theorem tj_symmetric (alpha : R) (ti : float) (p q : R * R) :
  tj alpha ti (pt p) (pt q) = tj alpha ti (pt q) (pt p).
Proof. now rewrite !tj_pairs, dist_sym. Qed.

(** X2.  For [alpha >= 0] and a finite running knot, [tj] returns a finite knot
    that is not smaller, and it returns the running knot itself exactly
    when the two points coincide and [alpha] is not zero. *)
Theorem tj_step (alpha ti : R) (p q : R * R) :
  0 <= alpha ->
  exists x : R,
    tj alpha (Fin ti) (pt p) (pt q) = Ok (Fin x) /\
    ti <= x /\
    (x = ti <-> p = q /\ alpha <> 0).
Proof.
  intros Ha. rewrite tj_pairs.
  destruct (Req_dec_T alpha 0) as [-> | Na].
  - rewrite fpow_alpha0, fadd_fin. eexists. split; [reflexivity |].
    split; [lra |]. split; [lra | intros [_ N]; now elim N].
  - destruct (point_eq_dec p q) as [-> | Npq].
    + rewrite dist_same, fpow_zero_base, fadd_fin by lra.
      eexists. split; [reflexivity |]. split; [lra |].
      split; [now split | lra].
    + pose proof (Rpower_gt0 (dist p q) alpha) as G.
      rewrite fpow_pos, fadd_fin by now apply dist_pos.
      eexists. split; [reflexivity |]. split; [lra |].
      split; [lra | intros [E _]; contradiction].
Qed.

Lemma tj_step_witness :
  exists x : R,
    tj (1 / 2) (Fin 3) (pt (1, 2)) (pt (2, -1)) = Ok (Fin x) /\
    3 <= x /\
    (x = 3 <-> (1, 2) = (2, -1) /\ 1 / 2 <> 0).
Proof. apply (tj_step (1 / 2) 3 (1, 2) (2, -1)). lra. Defined.

End KnotSpacing.

(** ** Further properties of the evaluation of one point *)

Section PointEvaluation.

Lemma pt_pair (x y : R) : Pair x y = pt (x, y).
Proof. reflexivity. Qed.

Lemma catmull_rom_point_raises (p0 p1 p2 p3 : value) (t alpha : R) (e : exn) :
  catmull_rom_point p0 p1 p2 p3 t alpha = Raise e -> e = TypeError.
Proof.
  destruct p0, p1, p2, p3; cbn; intros H; congruence.
Qed.

Lemma catmull_rom_point_not_pair (p0 p1 p2 p3 : value) (t alpha : R) :
  (is_pair p0 && is_pair p1 && is_pair p2 && is_pair p3)%bool = false ->
  catmull_rom_point p0 p1 p2 p3 t alpha = Raise TypeError.
Proof.
  destruct p0, p1, p2, p3; cbn [is_pair andb]; intros H;
    try discriminate; reflexivity.
Qed.

(** With numpy operands [catmull_rom_point] returns an array of two numbers when its four
    control values are pairs, and raises [TypeError] as soon as one of
    them is a plain number. *)
Theorem catmull_rom_point_shape (p0 p1 p2 p3 : value) (t alpha : R) :
  if (is_pair p0 && is_pair p1 && is_pair p2 && is_pair p3)%bool
  then exists a b : float, catmull_rom_point p0 p1 p2 p3 t alpha = Ok (Pair a b)
  else catmull_rom_point p0 p1 p2 p3 t alpha = Raise TypeError.
Proof.
  destruct (is_pair p0 && is_pair p1 && is_pair p2 && is_pair p3)%bool eqn:E;
    [| now apply catmull_rom_point_not_pair].
  destruct p0 as [| x0 y0], p1 as [| x1 y1], p2 as [| x2 y2], p3 as [| x3 y3];
    cbn [is_pair andb] in E; try discriminate.
  rewrite !pt_pair, catmull_rom_point_pairs. do 2 eexists. reflexivity.
Qed.

Lemma catmull_rom_point_distinct (p0 p1 p2 p3 : R * R) (t alpha : R) :
  p0 <> p1 -> p1 <> p2 -> p2 <> p3 ->
  catmull_rom_point (pt p0) (pt p1) (pt p2) (pt p3) t alpha =
    Ok (Pair
          (Fin (channelR 0
                  (0 + Rpower (dist p0 p1) alpha)
                  (0 + Rpower (dist p0 p1) alpha + Rpower (dist p1 p2) alpha)
                  (0 + Rpower (dist p0 p1) alpha + Rpower (dist p1 p2) alpha
                   + Rpower (dist p2 p3) alpha)
                  (fst p0) (fst p1) (fst p2) (fst p3) t))
          (Fin (channelR 0
                  (0 + Rpower (dist p0 p1) alpha)
                  (0 + Rpower (dist p0 p1) alpha + Rpower (dist p1 p2) alpha)
                  (0 + Rpower (dist p0 p1) alpha + Rpower (dist p1 p2) alpha
                   + Rpower (dist p2 p3) alpha)
                  (snd p0) (snd p1) (snd p2) (snd p3) t))).
Proof.
  intros H01 H12 H23.
  pose proof (Rpower_gt0 (dist p0 p1) alpha).
  pose proof (Rpower_gt0 (dist p1 p2) alpha).
  pose proof (Rpower_gt0 (dist p2 p3) alpha).
  rewrite catmull_rom_point_pairs, knots2d_distinct by assumption.
  rewrite !channel_fin by lra. reflexivity.
Qed.

Lemma catmull_rom_point_degenerate (p0 p1 p2 p3 : R * R) (t alpha : R) :
  0 < alpha -> p0 = p1 \/ p1 = p2 \/ p2 = p3 ->
  catmull_rom_point (pt p0) (pt p1) (pt p2) (pt p3) t alpha = Ok (Pair NaN NaN).
Proof.
  intros Ha Hc. rewrite catmull_rom_point_pairs.
  destruct (knots2d_fin p0 p1 p2 p3 alpha Ha) as (d1 & d2 & d3 & E1 & E2 & E3 & EK).
  rewrite EK.
  destruct Hc as [E | [E | E]]; subst.
  - rewrite dist_same, fpow_zero_base in E1 by assumption.
    injection E1 as <-. now rewrite !channel_degenerate_01.
  - rewrite dist_same, fpow_zero_base in E2 by assumption.
    injection E2 as <-. now rewrite !channel_degenerate_12.
  - rewrite dist_same, fpow_zero_base in E3 by assumption.
    injection E3 as <-. now rewrite !channel_degenerate_23.
Qed.

(** X4.  For [alpha > 0] and control points given as numpy arrays, in
    exact arithmetic: the returned point has finite coordinates exactly
    when no two consecutive control points coincide, and it is
    [(nan, nan)] as soon as two of them do. *)
Theorem finite_iff_distinct (p0 p1 p2 p3 : R * R) (t alpha : R) :
  0 < alpha ->
  ((p0 <> p1 /\ p1 <> p2 /\ p2 <> p3) <->
   (exists x y : R,
      catmull_rom_point (pt p0) (pt p1) (pt p2) (pt p3) t alpha
        = Ok (Pair (Fin x) (Fin y)))) /\
  (p0 = p1 \/ p1 = p2 \/ p2 = p3 ->
   catmull_rom_point (pt p0) (pt p1) (pt p2) (pt p3) t alpha
     = Ok (Pair NaN NaN)).
Proof.
  intros Ha. split; [| now apply catmull_rom_point_degenerate].
  split.
  - intros (H01 & H12 & H23).
    rewrite catmull_rom_point_distinct by assumption.
    do 2 eexists. reflexivity.
  - intros (x & y & E).
    assert (N : ~ (p0 = p1 \/ p1 = p2 \/ p2 = p3)).
    { intros Hc.
      rewrite (catmull_rom_point_degenerate _ _ _ _ _ _ Ha Hc) in E.
      discriminate. }
    repeat split; intros C; apply N; auto.
Qed.

Lemma finite_iff_distinct_witness :
  (((0, 0) <> (1, 2) /\ (1, 2) <> (2, -1) /\ (2, -1) <> (3, 1)) <->
   (exists x y : R,
      catmull_rom_point (pt (0, 0)) (pt (1, 2)) (pt (2, -1)) (pt (3, 1))
          (1 / 4) (1 / 2)
        = Ok (Pair (Fin x) (Fin y)))) /\
  ((0, 0) = (1, 2) \/ (1, 2) = (2, -1) \/ (2, -1) = (3, 1) ->
   catmull_rom_point (pt (0, 0)) (pt (1, 2)) (pt (2, -1)) (pt (3, 1))
       (1 / 4) (1 / 2)
     = Ok (Pair NaN NaN)).
Proof.
  apply (finite_iff_distinct (0, 0) (1, 2) (2, -1) (3, 1) (1 / 4) (1 / 2)). lra.
Defined.

(** X5.  With the preset [a_uniform] the knots are [0,1,2,3] whatever the
    points are: the result is always finite, it is [p1] at [t = 1] and
    [p2] at [t = 2], also when control points coincide. *)
Theorem uniform_preset (p0 p1 p2 p3 : R * R) (t : R) :
  (exists x y : R,
     catmull_rom_point (pt p0) (pt p1) (pt p2) (pt p3) t a_uniform
       = Ok (Pair (Fin x) (Fin y))) /\
  catmull_rom_point (pt p0) (pt p1) (pt p2) (pt p3) 1 a_uniform = Ok (lift (pt p1)) /\
  catmull_rom_point (pt p0) (pt p1) (pt p2) (pt p3) 2 a_uniform = Ok (lift (pt p2)).
Proof.
  unfold a_uniform. rewrite !catmull_rom_point_uniform.
  split; [do 2 eexists; reflexivity |].
  rewrite !(channelR_at_t1 0 1 2 3), !(channelR_at_t2 0 1 2 3) by lra.
  split; reflexivity.
Qed.

Lemma channelR_shift (t1 t2 t3 c0 c1 c2 c3 d u : R) :
  0 < t1 -> t1 < t2 -> t2 < t3 ->
  channelR 0 t1 t2 t3 (c0 + d) (c1 + d) (c2 + d) (c3 + d) u
    = channelR 0 t1 t2 t3 c0 c1 c2 c3 u + d.
Proof. intros. unfold channelR, blendR. field. repeat split; lra. Qed.

Lemma channelR_reverse (r1 r2 r3 c0 c1 c2 c3 u : R) :
  0 < r1 -> 0 < r2 -> 0 < r3 ->
  channelR 0 (0 + r3) (0 + r3 + r2) (0 + r3 + r2 + r1) c3 c2 c1 c0
      (0 + r1 + r2 + r3 - u)
    = channelR 0 (0 + r1) (0 + r1 + r2) (0 + r1 + r2 + r3) c0 c1 c2 c3 u.
Proof. intros. unfold channelR, blendR. field. repeat split; lra. Qed.

Lemma channelR_even (s a d u : R) :
  0 < s ->
  channelR 0 (0 + s) (0 + s + s) (0 + s + s + s)
      a (a + d) (a + 2 * d) (a + 3 * d) u
    = a + d * (u / s).
Proof. intros. unfold channelR, blendR. field. lra. Qed.

Lemma shift_neq (v p q : R * R) : p <> q -> shift v p <> shift v q.
Proof.
  intros H E. apply H. destruct p as [a b], q as [c d], v as [vx vy].
  unfold shift in E. cbn [fst snd] in E. injection E as E1 E2.
  f_equal; lra.
Qed.

(** X6.  Moving the four control points by one vector moves the returned point
    by that vector, when no two consecutive points coincide. *)
Theorem translation_invariance (v p0 p1 p2 p3 : R * R) (t alpha : R) :
  p0 <> p1 -> p1 <> p2 -> p2 <> p3 ->
  exists x y : R,
    catmull_rom_point (pt p0) (pt p1) (pt p2) (pt p3) t alpha
      = Ok (Pair (Fin x) (Fin y)) /\
    catmull_rom_point (pt (shift v p0)) (pt (shift v p1)) (pt (shift v p2))
        (pt (shift v p3)) t alpha
      = Ok (Pair (Fin (x + fst v)) (Fin (y + snd v))).
Proof.
  intros H01 H12 H23.
  pose proof (Rpower_gt0 (dist p0 p1) alpha).
  pose proof (Rpower_gt0 (dist p1 p2) alpha).
  pose proof (Rpower_gt0 (dist p2 p3) alpha).
  rewrite !catmull_rom_point_distinct by (assumption || now apply shift_neq).
  rewrite !dist_shift. do 2 eexists. split; [reflexivity |].
  unfold shift. cbn [fst snd]. rewrite !channelR_shift by lra. reflexivity.
Qed.

Lemma translation_invariance_witness :
  exists x y : R,
    catmull_rom_point (pt (0, 0)) (pt (1, 2)) (pt (2, -1)) (pt (3, 1))
        (1 / 4) (1 / 2)
      = Ok (Pair (Fin x) (Fin y)) /\
    catmull_rom_point (pt (shift (5, 7) (0, 0))) (pt (shift (5, 7) (1, 2)))
        (pt (shift (5, 7) (2, -1))) (pt (shift (5, 7) (3, 1))) (1 / 4) (1 / 2)
      = Ok (Pair (Fin (x + fst (5, 7))) (Fin (y + snd (5, 7)))).
Proof.
  apply (translation_invariance (5, 7) (0, 0) (1, 2) (2, -1) (3, 1) (1 / 4) (1 / 2)).
  - intros E. injection E as E1 E2. lra.
  - intros E. injection E as E1 E2. lra.
  - intros E. injection E as E1 E2. lra.
Defined.

(** X7.  Handing over the control points in reverse order and mirroring the
    parameter in the last knot [t3] gives the same point. *)
Theorem reversal_symmetry (p0 p1 p2 p3 : R * R) (alpha : R) :
  p0 <> p1 -> p1 <> p2 -> p2 <> p3 ->
  exists t0 t1 t2 t3 : R,
    knots (pt p0) (pt p1) (pt p2) (pt p3) alpha
      = Ok (Fin t0, Fin t1, Fin t2, Fin t3) /\
    forall t : R,
      catmull_rom_point (pt p3) (pt p2) (pt p1) (pt p0) (t3 - t) alpha
        = catmull_rom_point (pt p0) (pt p1) (pt p2) (pt p3) t alpha.
Proof.
  intros H01 H12 H23.
  pose proof (Rpower_gt0 (dist p0 p1) alpha).
  pose proof (Rpower_gt0 (dist p1 p2) alpha).
  pose proof (Rpower_gt0 (dist p2 p3) alpha).
  rewrite knots_pairs, knots2d_distinct by assumption.
  do 4 eexists. split; [reflexivity |]. intros t.
  rewrite !catmull_rom_point_distinct by (assumption || now apply not_eq_sym).
  rewrite (dist_sym p3 p2), (dist_sym p2 p1), (dist_sym p1 p0).
  rewrite !channelR_reverse by assumption. reflexivity.
Qed.

Lemma reversal_symmetry_witness :
  exists t0 t1 t2 t3 : R,
    knots (pt (0, 0)) (pt (1, 2)) (pt (2, -1)) (pt (3, 1)) (1 / 2)
      = Ok (Fin t0, Fin t1, Fin t2, Fin t3) /\
    forall t : R,
      catmull_rom_point (pt (3, 1)) (pt (2, -1)) (pt (1, 2)) (pt (0, 0))
          (t3 - t) (1 / 2)
        = catmull_rom_point (pt (0, 0)) (pt (1, 2)) (pt (2, -1)) (pt (3, 1))
            t (1 / 2).
Proof.
  apply (reversal_symmetry (0, 0) (1, 2) (2, -1) (3, 1) (1 / 2)).
  - intros E. injection E as E1 E2. lra.
  - intros E. injection E as E1 E2. lra.
  - intros E. injection E as E1 E2. lra.
Defined.

(** X8.  Four evenly spaced points on a line, [p0 + i*d] for a step [d] that
    is not zero: every knot interval has the length [s = |d| ** alpha],
    and the returned point is [p0 + (t/s)*d]; it stays on the line and
    advances with [t]. *)
Theorem evenly_spaced_line (a b dx dy t alpha : R) :
  (dx, dy) <> (0, 0) ->
  catmull_rom_point
      (pt (a, b)) (pt (a + dx, b + dy))
      (pt (a + 2 * dx, b + 2 * dy)) (pt (a + 3 * dx, b + 3 * dy)) t alpha
    = Ok (Pair (Fin (a + dx * (t / Rpower (sqrt (dx ^ 2 + dy ^ 2)) alpha)))
               (Fin (b + dy * (t / Rpower (sqrt (dx ^ 2 + dy ^ 2)) alpha)))).
Proof.
  intros Hd.
  assert (D : forall x y j k : R, k = j + 1 ->
            dist (x + j * dx, y + j * dy) (x + k * dx, y + k * dy)
              = sqrt (dx ^ 2 + dy ^ 2)).
  { intros x y j k ->. unfold dist. cbn [fst snd]. f_equal. ring. }
  pose proof (Rpower_gt0 (sqrt (dx ^ 2 + dy ^ 2)) alpha) as G.
  replace (a, b) with (a + 0 * dx, b + 0 * dy) by (f_equal; ring).
  replace (a + dx, b + dy) with (a + 1 * dx, b + 1 * dy) by (f_equal; ring).
  rewrite catmull_rom_point_distinct.
  - rewrite !D by lra. cbn [fst snd].
    replace (a + 0 * dx) with a by ring. replace (b + 0 * dy) with b by ring.
    replace (a + 1 * dx) with (a + dx) by ring.
    replace (b + 1 * dy) with (b + dy) by ring.
    rewrite !channelR_even by assumption. reflexivity.
  - intros E. apply Hd. injection E as E1 E2. f_equal; lra.
  - intros E. apply Hd. injection E as E1 E2. f_equal; lra.
  - intros E. apply Hd. injection E as E1 E2. f_equal; lra.
Qed.

Lemma evenly_spaced_line_witness :
  catmull_rom_point
      (pt (0, 0)) (pt (0 + 1, 0 + 0))
      (pt (0 + 2 * 1, 0 + 2 * 0)) (pt (0 + 3 * 1, 0 + 3 * 0)) (1 / 4) (1 / 2)
    = Ok (Pair (Fin (0 + 1 * (1 / 4 / Rpower (sqrt (1 ^ 2 + 0 ^ 2)) (1 / 2))))
               (Fin (0 + 0 * (1 / 4 / Rpower (sqrt (1 ^ 2 + 0 ^ 2)) (1 / 2))))).
Proof.
  apply (evenly_spaced_line 0 0 1 0 (1 / 4) (1 / 2)).
  intros E. injection E as E1. lra.
Defined.

End PointEvaluation.

(** ** Further properties of the sampler and of the script *)

Section SamplerOutcome.

Lemma Rpower_ge_1 (d alpha : R) : 1 <= d -> 0 <= alpha -> 1 <= Rpower d alpha.
Proof.
  intros Hd Ha. unfold Rpower. rewrite <- exp_0.
  assert (L : 0 <= ln d).
  { destruct Hd as [Hd | <-]; [| rewrite ln_1; lra].
    rewrite <- ln_1. left. apply ln_increasing; lra. }
  assert (P : 0 <= alpha * ln d) by now apply Rmult_le_pos.
  destruct P as [P | <-]; [| lra].
  left. now apply exp_increasing.
Qed.

Lemma linspace_unit_range (N : Z) (ts : list R) (t : R) :
  linspace 0 1 N = Ok ts -> In t ts -> 0 <= t < 1.
Proof.
  intros H Ht. unfold linspace in H.
  destruct (Z.ltb_spec N 0) as [L | L]; [discriminate |].
  injection H as <-. apply in_map_iff in Ht. destruct Ht as (k & <- & Hk).
  apply in_seq in Hk. cbn [Nat.add] in Hk.
  assert (HN : (1 <= N)%Z) by lia.
  rewrite linspace_param by assumption. apply param_range. lia.
Qed.

(** X9.  For four 2D array points handed over as [p_x]: [catmull_rom]
    returns, in both sequences, the values of [catmull_rom_point] at the
    elements of [np.linspace(0, 1, res, endpoint=False)], passed on as they
    are.  They lie in [[0,1)]; when the first two control points are at
    least one unit apart and [alpha >= 0], the knot [t1] of [p1] is at
    least [1], so every sample is taken before [t1]. *)
Theorem samples_before_t1
  (p0 p1 p2 p3 : R * R) (p_y : list value) (N : Z) (alpha : R) :
  length p_y = 4%nat -> (0 <= N)%Z -> 0 <= alpha -> 1 <= dist p0 p1 ->
  exists (t1 : R) (ts : list R),
    tj alpha (Fin 0) (pt p0) (pt p1) = Ok (Fin t1) /\
    1 <= t1 /\
    linspace 0 1 N = Ok ts /\
    catmull_rom [pt p0; pt p1; pt p2; pt p3] p_y N alpha =
      Ok (map (curve_point p0 p1 p2 p3 alpha) ts,
          map (curve_point p0 p1 p2 p3 alpha) ts) /\
    forall t : R, In t ts ->
      0 <= t < t1 /\
      catmull_rom_point (pt p0) (pt p1) (pt p2) (pt p3) t alpha
        = Ok (curve_point p0 p1 p2 p3 alpha t).
Proof.
  intros Hy HN Ha Hd.
  pose proof (Rpower_ge_1 _ _ Hd Ha) as G.
  rewrite tj_pairs, fpow_pos, fadd_fin by lra.
  rewrite catmull_rom_pairs by assumption.
  destruct (linspace 0 1 N) as [ts | e] eqn:E;
    [| rewrite linspace_nonneg in E by assumption; discriminate].
  cbn [bind]. do 2 eexists.
  split; [reflexivity |]. split; [lra |]. split; [reflexivity |].
  split; [reflexivity |].
  intros t Ht. pose proof (linspace_unit_range _ _ _ E Ht).
  split; [lra | apply catmull_rom_point_pairs].
Qed.

Lemma samples_before_t1_witness :
  exists (t1 : R) (ts : list R),
    tj (1 / 2) (Fin 0) (pt (0, 0)) (pt (3, 4)) = Ok (Fin t1) /\
    1 <= t1 /\
    linspace 0 1 50 = Ok ts /\
    catmull_rom [pt (0, 0); pt (3, 4); pt (5, 0); pt (6, 1)]
                [Scalar 0; Scalar 0; Scalar 0; Scalar 0] 50 (1 / 2) =
      Ok (map (curve_point (0, 0) (3, 4) (5, 0) (6, 1) (1 / 2)) ts,
          map (curve_point (0, 0) (3, 4) (5, 0) (6, 1) (1 / 2)) ts) /\
    forall t : R, In t ts ->
      0 <= t < t1 /\
      catmull_rom_point (pt (0, 0)) (pt (3, 4)) (pt (5, 0)) (pt (6, 1)) t (1 / 2)
        = Ok (curve_point (0, 0) (3, 4) (5, 0) (6, 1) (1 / 2) t).
Proof.
  apply (samples_before_t1 (0, 0) (3, 4) (5, 0) (6, 1)
           [Scalar 0; Scalar 0; Scalar 0; Scalar 0] 50 (1 / 2)).
  - reflexivity.
  - lia.
  - lra.
  - assert (E : dist (0, 0) (3, 4) = 5).
    { unfold dist. cbn [fst snd].
      replace ((3 - 0) ^ 2 + (4 - 0) ^ 2) with (5 * 5) by ring.
      apply sqrt_square. lra. }
    rewrite E. lra.
Defined.

Lemma all_pairs_inv (q0 q1 q2 q3 : value) :
  forallb is_pair [q0; q1; q2; q3] = true ->
  exists p0 p1 p2 p3 : R * R,
    q0 = pt p0 /\ q1 = pt p1 /\ q2 = pt p2 /\ q3 = pt p3.
Proof.
  destruct q0 as [| x0 y0], q1 as [| x1 y1], q2 as [| x2 y2], q3 as [| x3 y3];
    cbn [forallb is_pair andb]; intros H; try discriminate.
  now exists (x0, y0), (x1, y1), (x2, y2), (x3, y3).
Qed.

Lemma not_all_pairs_inv (q0 q1 q2 q3 : value) :
  forallb is_pair [q0; q1; q2; q3] = false ->
  (is_pair q0 && is_pair q1 && is_pair q2 && is_pair q3)%bool = false.
Proof.
  cbn [forallb]. destruct (is_pair q0), (is_pair q1), (is_pair q2), (is_pair q3);
    cbn [andb]; congruence.
Qed.

Lemma catmull_rom_not_pair (q0 q1 q2 q3 : value) (p_y : list value)
  (res : Z) (alpha : R) :
  length p_y = 4%nat -> (1 <= res)%Z ->
  forallb is_pair [q0; q1; q2; q3] = false ->
  catmull_rom [q0; q1; q2; q3] p_y res alpha = Raise TypeError.
Proof.
  intros Hy Hres Hq.
  rewrite catmull_rom_quad, linspace_nonneg by (assumption || lia). cbn [bind].
  destruct (Z.to_nat res) as [| n] eqn:En; [lia |]. cbn [seq map].
  rewrite (comprehension_raise _ TypeError); [reflexivity |].
  now apply catmull_rom_point_not_pair, not_all_pairs_inv.
Qed.

(** X11.  The script cannot get past its first call of [catmull_rom]: it passes
    the coordinates as two arrays of plain numbers, and the first sample
    raises [TypeError], whatever the random ordinates are. *)
Theorem script_raises (r0 r1 r2 r3 : R) :
  script_curves r0 r1 r2 r3 = Raise TypeError.
Proof.
  unfold script_curves.
  rewrite catmull_rom_not_pair; reflexivity || lia.
Qed.

End SamplerOutcome.

(** ** The alternative basis [transform_control_points] *)

Section Transform.

Lemma transform_numbers (a b c d : R) :
  transform_control_points [Scalar a; Scalar b; Scalar c; Scalar d] =
    Ok (Scalar (Fin (-1 * 2 * a + b)), Scalar (Fin b), Scalar (Fin c),
        Scalar (Fin (-1 * a + b + c + d))).
Proof. reflexivity. Qed.

Lemma transform_wrong_length (p : list value) :
  length p <> 4%nat -> transform_control_points p = Raise AssertionError.
Proof.
  intros H. unfold transform_control_points.
  destruct (Nat.eqb_spec (length p) 4) as [E | _]; [contradiction | reflexivity].
Qed.

(** On numpy operands [transform_control_points] fails exactly on inputs whose length is not
    4, and then with the assertion; otherwise it returns four entries, the
    second and third of which are the second and third control values
    unchanged. *)
Theorem transform_outcome (p : list value) :
  match transform_control_points p with
  | Raise AssertionError => length p <> 4%nat
  | Raise _ => False
  | Ok (c0, c1, c2, c3) =>
      length p = 4%nat /\
      Some c1 = option_map lift (nth_error p 1) /\
      Some c2 = option_map lift (nth_error p 2)
  end.
Proof.
  destruct (Nat.eq_dec (length p) 4) as [H | H];
    [| now rewrite transform_wrong_length].
  destruct (length_4 p H) as (q0 & q1 & q2 & q3 & ->).
  cbn. repeat split.
Qed.

(** X13.  On four numbers the transform loses nothing: two inputs with the same
    result are equal. *)
Theorem transform_injective (p q : list R) :
  length p = 4%nat ->
  transform_control_points (map Scalar p) = transform_control_points (map Scalar q) ->
  p = q.
Proof.
  intros Hp E.
  destruct (length_4 p Hp) as (a & b & c & d & ->).
  destruct (Nat.eq_dec (length q) 4) as [Hq | Hq].
  - destruct (length_4 q Hq) as (a' & b' & c' & d' & ->).
    cbn [map] in E. rewrite !transform_numbers in E.
    injection E as E0 E1 E2 E3.
    assert (b = b') by lra. assert (c = c') by lra.
    assert (a = a') by lra. assert (d = d') by lra.
    congruence.
  - rewrite (transform_wrong_length (map Scalar q)) in E
      by now rewrite length_map.
    cbn [map] in E. rewrite transform_numbers in E. discriminate.
Qed.

Lemma transform_injective_witness : [0; 1; 2; 3] = [0; 1; 2; 3].
Proof.
  apply (transform_injective [0; 1; 2; 3] [0; 1; 2; 3]); reflexivity.
Defined.

(** X14.  On four 2D points the transform acts on each coordinate as it acts on
    four numbers. *)
Theorem transform_componentwise (p0 p1 p2 p3 : R * R) :
  exists a0 a1 a2 a3 b0 b1 b2 b3 : float,
    transform_control_points
        [Scalar (fst p0); Scalar (fst p1); Scalar (fst p2); Scalar (fst p3)]
      = Ok (Scalar a0, Scalar a1, Scalar a2, Scalar a3) /\
    transform_control_points
        [Scalar (snd p0); Scalar (snd p1); Scalar (snd p2); Scalar (snd p3)]
      = Ok (Scalar b0, Scalar b1, Scalar b2, Scalar b3) /\
    transform_control_points [pt p0; pt p1; pt p2; pt p3]
      = Ok (Pair a0 b0, Pair a1 b1, Pair a2 b2, Pair a3 b3).
Proof.
  do 8 eexists. rewrite !transform_numbers.
  split; [reflexivity |]. split; reflexivity.
Qed.

End Transform.

(** ** Python floats, tuples and numpy operands *)

Section RunTimeTypes.

Lemma py_pow_nonneg (k : Py.kind) (l alpha : R) :
  0 <= alpha -> Py.pow k l alpha = Ok (Py.Num k (fpow l alpha)).
Proof.
  intros Ha. unfold Py.pow. destruct k; [| reflexivity].
  destruct (Rlt_dec alpha 0) as [L | _]; [lra | reflexivity].
Qed.

Lemma py_div_np_l (k : Py.kind) (a b : float) :
  Py.div (Py.Num Py.NpFloat a) (Py.Num k b) = Ok (Py.Num Py.NpFloat (a / b)%fl).
Proof. reflexivity. Qed.

Lemma py_div_np_r (k : Py.kind) (a b : float) :
  Py.div (Py.Num k a) (Py.Num Py.NpFloat b) = Ok (Py.Num Py.NpFloat (a / b)%fl).
Proof. destruct k; reflexivity. Qed.

(** With numpy arrays (and plain numbers) as control values the typed
    embedding and the first one agree, whatever the kind of [t]. *)
Lemma py_agrees (p0 p1 p2 p3 : value) (k : Py.kind) (t alpha : R) :
  Py.catmull_rom_point (Py.inject p0) (Py.inject p1) (Py.inject p2)
      (Py.inject p3) (Py.Num k (Fin t)) alpha
    = catmull_rom_point p0 p1 p2 p3 t alpha.
Proof.
  destruct p0 as [x0 | x0 y0], p1 as [x1 | x1 y1], p2 as [x2 | x2 y2],
    p3 as [x3 | x3 y3]; try reflexivity; destruct k; reflexivity.
Qed.

Lemma py_tj_nonneg (alpha : R) (ti : Py.num) (pi pj : Py.point) :
  0 <= alpha ->
  Py.tj alpha ti pi pj =
    match Py.unpack pi, Py.unpack pj with
    | Ok (ki, xi, yi), Ok (kj, xj, yj) =>
        Ok (Py.add ti (Py.Num (Py.join ki kj) (fpow (dist (xi, yi) (xj, yj)) alpha)))
    | Raise e, _ => Raise e
    | _, Raise e => Raise e
    end.
Proof.
  intros Ha. unfold Py.tj.
  destruct (Py.unpack pi) as [[[ki xi] yi] | e]; [| reflexivity].
  destruct (Py.unpack pj) as [[[kj xj] yj] | e]; [| reflexivity].
  cbn [bind]. rewrite py_pow_nonneg by assumption. reflexivity.
Qed.

Ltac knots_step Ha :=
  rewrite (py_tj_nonneg _ _ _ _ Ha); cbn [Py.unpack bind].

Lemma py_not_arrays_np (p0 p1 p2 p3 : Py.point) (t : float) (alpha : R) :
  0 <= alpha ->
  forallb Py.is_array [p0; p1; p2; p3] = false ->
  Py.catmull_rom_point p0 p1 p2 p3 (Py.Num Py.NpFloat t) alpha = Raise TypeError.
Proof.
  intros Ha H. unfold Py.catmull_rom_point.
  destruct p0, p1, p2, p3; cbn [forallb Py.is_array andb] in H; try discriminate;
    repeat (knots_step Ha); try reflexivity.
Qed.

Lemma py_not_arrays (p0 p1 p2 p3 : Py.point) (t : Py.num) (alpha : R) :
  0 <= alpha ->
  forallb Py.is_array [p0; p1; p2; p3] = false ->
  exists e : exn,
    Py.catmull_rom_point p0 p1 p2 p3 t alpha = Raise e /\
    (e = TypeError \/ e = ZeroDivisionError).
Proof.
  intros Ha H. destruct t as [[|] t]; [| eexists; split; [now apply py_not_arrays_np | now left]].
  unfold Py.catmull_rom_point.
  destruct p0, p1, p2, p3; cbn [forallb Py.is_array andb] in H; try discriminate;
    repeat (knots_step Ha);
    try (eexists; split; [reflexivity | now left]);
    unfold Py.blend_points, Py.div; cbn [Py.sub Py.add Py.kind_of Py.val Py.join];
    repeat match goal with
      | |- context [Py.fzero_dec ?f] => destruct (Py.fzero_dec f)
      end; cbn [bind Py.mul_point];
    try (eexists; split; [reflexivity | auto]).
Qed.

Lemma first_interval_zero (p0 p1 : R * R) (alpha : R) :
  0 <= alpha ->
  ((Fin 0 + fpow (dist p0 p1) alpha) - Fin 0)%fl = Fin 0 <-> p0 = p1 /\ alpha <> 0.
Proof.
  intros Ha. destruct (Req_dec_T alpha 0) as [-> | Na].
  - rewrite fpow_alpha0. cbn [fadd fsub]. split.
    + intros E. injection E as E. lra.
    + intros [_ N]. now elim N.
  - destruct (point_eq_dec p0 p1) as [-> | Np].
    + rewrite dist_same, fpow_zero_base by lra. cbn [fadd fsub]. split.
      * intros _. now split.
      * intros _. f_equal. lra.
    + pose proof (Rpower_gt0 (dist p0 p1) alpha).
      rewrite fpow_pos by now apply dist_pos. cbn [fadd fsub]. split.
      * intros E. injection E as E. lra.
      * intros [E _]. contradiction.
Qed.

Lemma py_tuples_np (p0 p1 p2 p3 : R * R) (t : float) (alpha : R) :
  0 <= alpha ->
  Py.catmull_rom_point (Py.tup p0) (Py.tup p1) (Py.tup p2) (Py.tup p3)
      (Py.Num Py.NpFloat t) alpha = Raise TypeError.
Proof. intros Ha. now apply py_not_arrays_np. Qed.

Lemma py_tuples_py (p0 p1 p2 p3 : R * R) (t alpha : R) :
  0 <= alpha ->
  Py.catmull_rom_point (Py.tup p0) (Py.tup p1) (Py.tup p2) (Py.tup p3)
      (Py.Num Py.PyFloat (Fin t)) alpha =
    Raise (if point_eq_dec p0 p1
           then (if Req_dec_T alpha 0 then TypeError else ZeroDivisionError)
           else TypeError).
Proof.
  intros Ha. unfold Py.catmull_rom_point, Py.tup.
  repeat (knots_step Ha).
  unfold Py.blend_points, Py.div. cbn [Py.sub Py.add Py.kind_of Py.val Py.join].
  pose proof (first_interval_zero p0 p1 alpha Ha) as Z.
  destruct p0 as [x0 y0], p1 as [x1 y1]. cbn [fst snd] in *.
  destruct (Py.fzero_dec _) as [E | N].
  - apply Z in E. destruct E as [E Na].
    destruct (point_eq_dec (x0, y0) (x1, y1)) as [_ | C]; [| contradiction].
    destruct (Req_dec_T alpha 0) as [C | _]; [contradiction | reflexivity].
  - cbn [bind Py.mul_point].
    destruct (point_eq_dec (x0, y0) (x1, y1)) as [E | _]; [| reflexivity].
    destruct (Req_dec_T alpha 0) as [_ | Na]; [reflexivity |].
    exfalso. apply N, Z. now split.
Qed.

Lemma py_number (p0 p1 p2 p3 : Py.point) (t : Py.num) (alpha : R) :
  0 <= alpha ->
  existsb Py.is_number [p0; p1; p2; p3] = true ->
  Py.catmull_rom_point p0 p1 p2 p3 t alpha = Raise TypeError.
Proof.
  intros Ha H. unfold Py.catmull_rom_point.
  destruct p0, p1, p2, p3; cbn [existsb Py.is_number orb] in H; try discriminate;
    repeat (knots_step Ha); reflexivity.
Qed.

Lemma py_arrays (p0 p1 p2 p3 : R * R) (k : Py.kind) (t alpha : R) :
  Py.catmull_rom_point (Py.arr p0) (Py.arr p1) (Py.arr p2) (Py.arr p3)
      (Py.Num k (Fin t)) alpha
    = catmull_rom_point (pt p0) (pt p1) (pt p2) (pt p3) t alpha.
Proof. apply (py_agrees (pt p0) (pt p1) (pt p2) (pt p3)). Qed.

Lemma all_arrays_inv (q0 q1 q2 q3 : Py.point) :
  forallb Py.is_array [q0; q1; q2; q3] = true ->
  exists p0 p1 p2 p3 : R * R,
    q0 = Py.arr p0 /\ q1 = Py.arr p1 /\ q2 = Py.arr p2 /\ q3 = Py.arr p3.
Proof.
  destruct q0 as [| | x0 y0], q1 as [| | x1 y1], q2 as [| | x2 y2],
    q3 as [| | x3 y3]; cbn [forallb Py.is_array andb]; intros H;
    try discriminate.
  now exists (x0, y0), (x1, y1), (x2, y2), (x3, y3).
Qed.





End RunTimeTypes.

(** ** The knot sequence in exact arithmetic and under underflow *)

Section KnotOrder.

(** C5, as the code has it.  In exact arithmetic, for pairwise distinct
    consecutive points and [alpha] in [[0,1]]: the knots are [t0 = 0] and,
    each time, the previous knot plus the distance raised to [alpha]; they
    satisfy [t0 < t1 < t2 < t3]; and they are the knots over which
    [catmull_rom_point] performs its blends, for every [t]. *)
Theorem knots_increasing_exact (p0 p1 p2 p3 : R * R) (alpha : R) :
  p0 <> p1 -> p1 <> p2 -> p2 <> p3 -> 0 <= alpha <= 1 ->
  exists t1 t2 t3 : R,
    t1 = 0 + Rpower (dist p0 p1) alpha /\
    t2 = t1 + Rpower (dist p1 p2) alpha /\
    t3 = t2 + Rpower (dist p2 p3) alpha /\
    0 < t1 /\ t1 < t2 /\ t2 < t3 /\
    knots (pt p0) (pt p1) (pt p2) (pt p3) alpha
      = Ok (Fin 0, Fin t1, Fin t2, Fin t3) /\
    forall t : R,
      catmull_rom_point (pt p0) (pt p1) (pt p2) (pt p3) t alpha =
        Ok (segment (Fin 0, Fin t1, Fin t2, Fin t3)
              (lift (pt p0)) (lift (pt p1)) (lift (pt p2)) (lift (pt p3))
              (Fin t)).
Proof.
  intros H01 H12 H23 _.
  pose proof (Rpower_gt0 (dist p0 p1) alpha).
  pose proof (Rpower_gt0 (dist p1 p2) alpha).
  pose proof (Rpower_gt0 (dist p2 p3) alpha).
  do 3 eexists.
  split; [reflexivity |]. split; [reflexivity |]. split; [reflexivity |].
  split; [lra |]. split; [lra |]. split; [lra |].
  split.
  - now rewrite knots_pairs, knots2d_distinct.
  - intros t.
    now rewrite catmull_rom_point_segment, knots_pairs, knots2d_distinct.
Qed.

Lemma knots_increasing_exact_witness :
  exists t1 t2 t3 : R,
    t1 = 0 + Rpower (dist (0, 0) (1, 2)) (1 / 2) /\
    t2 = t1 + Rpower (dist (1, 2) (2, -1)) (1 / 2) /\
    t3 = t2 + Rpower (dist (2, -1) (3, 1)) (1 / 2) /\
    0 < t1 /\ t1 < t2 /\ t2 < t3 /\
    knots (pt (0, 0)) (pt (1, 2)) (pt (2, -1)) (pt (3, 1)) (1 / 2)
      = Ok (Fin 0, Fin t1, Fin t2, Fin t3) /\
    forall t : R,
      catmull_rom_point (pt (0, 0)) (pt (1, 2)) (pt (2, -1)) (pt (3, 1)) t (1 / 2) =
        Ok (segment (Fin 0, Fin t1, Fin t2, Fin t3)
              (lift (pt (0, 0))) (lift (pt (1, 2))) (lift (pt (2, -1)))
              (lift (pt (3, 1))) (Fin t)).
Proof.
  apply (knots_increasing_exact (0, 0) (1, 2) (2, -1) (3, 1) (1 / 2)).
  - intros E. injection E as E1 E2. lra.
  - intros E. injection E as E1 E2. lra.
  - intros E. injection E as E1 E2. lra.
  - lra.
Defined.

Lemma underflow_small (x : R) : Rabs x < / 2 ^ 1075 -> underflow x = 0.
Proof.
  intros H. unfold underflow.
  destruct (Rlt_dec (Rabs x) (/ 2 ^ 1075)) as [_ | N]; [reflexivity | contradiction].
Qed.

Lemma underflow_zero : underflow ((0 - 0) ^ 2) = 0.
Proof.
  unfold underflow.
  destruct (Rlt_dec _ _) as [_ | _]; [reflexivity | ring].
Qed.

Lemma sq_inv_pow (n : nat) : (/ 2 ^ n - 0) ^ 2 = / 2 ^ (n + n).
Proof.
  rewrite pow_add.
  assert (H : 2 ^ n <> 0) by (apply pow_nonzero; lra).
  revert H. generalize (2 ^ n). intros a H. field. exact H.
Qed.

Lemma tiny_square : Rabs ((/ 2 ^ 600 - 0) ^ 2) < / 2 ^ 1075.
Proof.
  rewrite sq_inv_pow.
  assert (P : forall n : nat, 0 < 2 ^ n) by (intros n; apply pow_lt; lra).
  rewrite Rabs_pos_eq by (left; apply Rinv_0_lt_compat, P).
  apply Rinv_lt_contravar.
  - apply Rmult_lt_0_compat; apply P.
  - apply Rlt_pow; [lra |]. apply Nat.ltb_lt. vm_compute. reflexivity.
Qed.

(** C5 fails in float64.  The points [(0,0)] and [(2 ** -600, 0)] are
    distinct, but the square of their distance along x underflows to zero,
    so with [alpha = 1/2] the first knot step is zero and [t1 = t0]. *)
Lemma knots_underflow_counterexample :
  (0, 0) <> (/ 2 ^ 600, 0) /\
  tj_underflow (1 / 2) (Fin 0) (pt (0, 0)) (pt (/ 2 ^ 600, 0)) = Ok (Fin 0) /\
  ~ flt (Fin 0) (Fin 0).
Proof.
  split; [| split].
  - intros E. injection E as E.
    assert (0 < / 2 ^ 600) by (apply Rinv_0_lt_compat, pow_lt; lra). lra.
  - unfold tj_underflow, pt. cbn [unpack bind fst snd].
    rewrite (underflow_small _ tiny_square), underflow_zero.
    rewrite Rplus_0_r, sqrt_0, fpow_zero_base, fadd_fin by lra.
    do 2 f_equal. lra.
  - cbn [flt]. lra.
Qed.

End KnotOrder.

(** ** Channels of numbers, and every outcome of the sampler *)

Section Channels.

(** C8 fails on the code.  With the coordinates of the control quad passed
    as two channels of four numbers, as the parameter names say and as the
    script passes them, [catmull_rom] raises [TypeError] for every
    resolution [N >= 1]: [tj] cannot unpack a number. *)
Theorem number_channels_no_samples
  (x0 x1 x2 x3 y0 y1 y2 y3 : R) (N : Z) (alpha : R) :
  (1 <= N)%Z ->
  catmull_rom [Scalar x0; Scalar x1; Scalar x2; Scalar x3]
              [Scalar y0; Scalar y1; Scalar y2; Scalar y3] N alpha
    = Raise TypeError.
Proof.
  intros HN. now apply catmull_rom_not_pair.
Qed.

Lemma number_channels_no_samples_witness :
  catmull_rom [Scalar 0; Scalar 1; Scalar 2; Scalar 3]
              [Scalar 0; Scalar 2; Scalar (-1); Scalar 1] 5 (1 / 2)
    = Raise TypeError.
Proof.
  apply (number_channels_no_samples 0 1 2 3 0 2 (-1) 1 5 (1 / 2)). lia.
Defined.

(** C7 fails on the code.  With the coordinates passed as two channels of
    numbers no knot is computed at all: the first knot step on the
    x-channel raises [TypeError], and so does [catmull_rom] for every
    [res >= 1].  Whatever [p_x] holds, the y-channel never reaches the
    knot computation: replacing [p_y] by any other 4-element sequence
    leaves the outcome unchanged. *)
Theorem number_channels_no_knots
  (x0 x1 x2 x3 y0 y1 y2 y3 : R) (res : Z) (alpha : R) :
  (1 <= res)%Z ->
  knots (Scalar x0) (Scalar x1) (Scalar x2) (Scalar x3) alpha = Raise TypeError /\
  catmull_rom_point (Scalar x0) (Scalar x1) (Scalar x2) (Scalar x3) 0 alpha
    = Raise TypeError /\
  catmull_rom [Scalar x0; Scalar x1; Scalar x2; Scalar x3]
              [Scalar y0; Scalar y1; Scalar y2; Scalar y3] res alpha
    = Raise TypeError /\
  forall p_x p_y' : list value,
    length p_y' = 4%nat ->
    catmull_rom p_x p_y' res alpha =
      catmull_rom p_x [Scalar y0; Scalar y1; Scalar y2; Scalar y3] res alpha.
Proof.
  intros Hres. split; [reflexivity |]. split; [reflexivity |].
  split; [now apply catmull_rom_not_pair |].
  intros p_x p_y' E. unfold catmull_rom. now rewrite E.
Qed.

Lemma number_channels_no_knots_witness :
  knots (Scalar 0) (Scalar 1) (Scalar 2) (Scalar 3) (1 / 2) = Raise TypeError /\
  catmull_rom_point (Scalar 0) (Scalar 1) (Scalar 2) (Scalar 3) 0 (1 / 2)
    = Raise TypeError /\
  catmull_rom [Scalar 0; Scalar 1; Scalar 2; Scalar 3]
              [Scalar 0; Scalar 2; Scalar (-1); Scalar 1] 5 (1 / 2)
    = Raise TypeError /\
  forall p_x p_y' : list value,
    length p_y' = 4%nat ->
    catmull_rom p_x p_y' 5 (1 / 2) =
      catmull_rom p_x [Scalar 0; Scalar 2; Scalar (-1); Scalar 1] 5 (1 / 2).
Proof.
  apply (number_channels_no_knots 0 1 2 3 0 2 (-1) 1 5 (1 / 2)). lia.
Defined.

Lemma py_catmull_rom_quad (q0 q1 q2 q3 : Py.point) (p_y : list Py.point)
  (res : Z) (alpha : R) :
  length p_y = 4%nat ->
  Py.catmull_rom [q0; q1; q2; q3] p_y res alpha =
    (ts <- linspace 0 1 res ;;
     x <- comprehension
            (fun t =>
               Py.catmull_rom_point q0 q1 q2 q3 (Py.Num Py.NpFloat (Fin t)) alpha)
            ts ;;
     Ok (x, x)).
Proof.
  intros Hy. unfold Py.catmull_rom. rewrite Hy.
  cbn [length Nat.eqb andb negb getitem nth_error bind].
  destruct (linspace 0 1 res) as [ts | e]; [| reflexivity]. cbn [bind].
  destruct (comprehension _ ts) as [x | e]; reflexivity.
Qed.

Lemma py_catmull_rom_assertion (p_x p_y : list Py.point) (res : Z) (alpha : R) :
  length p_x <> 4%nat \/ length p_y <> 4%nat ->
  Py.catmull_rom p_x p_y res alpha = Raise AssertionError.
Proof.
  intros H. unfold Py.catmull_rom.
  destruct (Nat.eqb_spec (length p_x) (length p_y)) as [E | N];
    destruct (Nat.eqb_spec (length p_y) 4) as [E' | N']; try reflexivity.
  exfalso. destruct H as [H | H]; apply H; congruence.
Qed.



End Channels.
